(** * Transaction processor: rule matching, batch categorization, grouping

    A shallow embedding of [src/transaction_processor.py] (class
    [TransactionProcessor]) and the properties of its categorization and
    similarity-grouping engine.

    Conventions of the embedding.
    - A Python [str] is a [string]; a character is one code point below 256,
      so [lower] folds the ASCII and the Latin-1 capital letters, as
      [str.lower] does on these code points.
    - The rule database [category_db] is the dictionary held by the
      processor: its three lists of strings, and every other key it carries.
    - A [DataFrame] is the list of its rows, each with its index label.
    - Printing, the frames living in memory and the calls made to the matcher
      are threaded through a state monad over [world]. *)

From Stdlib Require Import Ascii String QArith.
From stdpp Require Import base list strings gmap pretty sorting.

Set Warnings "-register-all,-clear-no-such-hyp".
Open Scope string_scope.
Open Scope list_scope.
Open Scope nat_scope.

(* ===================================================================== *)
(** ** Python strings *)
(* ===================================================================== *)

Module Str.

(** [c.lower()] for a code point below 256: A-Z, and the Latin-1 capitals
    U+00C0..U+00DE except the multiplication sign U+00D7. *)
Definition lower_char (c : ascii) : ascii :=
  let n := nat_of_ascii c in
  if ((65 <=? n) && (n <=? 90)) || ((192 <=? n) && (n <=? 222) && negb (n =? 215))
  then ascii_of_nat (n + 32)
  else c.

(** [s.lower()] on a string of code points below 256. There [str.lower]
    maps each character by itself; its context rule (the Greek final sigma)
    and its one-to-many mappings concern code points from U+0100 on, which
    a [string] does not hold. *)
Fixpoint lower (s : string) : string :=
  match s with
  | EmptyString => EmptyString
  | String c s' => String (lower_char c) (lower s')
  end.

(** [s.replace(" ", "")]: every occurrence of the space character U+0020
    is deleted; no other character is. *)
Fixpoint remove_spaces (s : string) : string :=
  match s with
  | EmptyString => EmptyString
  | String c s' =>
      if Ascii.eqb c " "%char then remove_spaces s' else String c (remove_spaces s')
  end.

(** [s.startswith(p)] *)
Fixpoint starts_with (p s : string) : bool :=
  match p, s with
  | EmptyString, _ => true
  | String _ _, EmptyString => false
  | String a p', String b s' => Ascii.eqb a b && starts_with p' s'
  end.

(** [needle in hay]: [needle] occurs in [hay] as a contiguous block. *)
Fixpoint contains (needle hay : string) : bool :=
  starts_with needle hay ||
  match hay with
  | EmptyString => false
  | String _ hay' => contains needle hay'
  end.

(** Truth value of a string: [bool(s)] is [False] exactly for [""]. *)
Definition truthy (s : string) : bool :=
  match s with EmptyString => false | String _ _ => true end.

(** The declarative reading of [in]. *)
Definition substring (needle hay : string) : Prop :=
  exists pre post : string, hay = pre +:+ needle +:+ post.

(** The characters [str.isspace] accepts below U+0100. *)
Definition is_whitespace (c : ascii) : bool :=
  let n := nat_of_ascii c in
  ((9 <=? n) && (n <=? 13)) || ((28 <=? n) && (n <=? 32)) || (n =? 133) || (n =? 160).

(** Deleting every whitespace character, not only U+0020. *)
Fixpoint remove_whitespace (s : string) : string :=
  match s with
  | EmptyString => EmptyString
  | String c s' =>
      if is_whitespace c then remove_whitespace s' else String c (remove_whitespace s')
  end.

End Str.

(* ===================================================================== *)
(** ** The rule database *)
(* ===================================================================== *)

(** JSON documents, which are also the values a dictionary loaded by
    [json.load] may hold under a key the engine does not read. Numbers are
    the integers. *)
Inductive json : Type :=
| JNull
| JBool (b : bool)
| JNum (n : Z)
| JStr (s : string)
| JArr (l : list json)
| JObj (o : list (string * json)).

(** [self.category_db]: the dictionary with keys ["descriptions"],
    ["business_labels"], ["retailer_labels"], each a list of [str], and
    whatever other keys the dictionary holds. *)
Record category_db : Type := Db {
  descriptions : list string;
  business_labels : list string;
  retailer_labels : list string;
  other_fields : list (string * json)
}.

(** [mapping_rules] of [_load_category_db]; [None] for an omitted label. *)
Definition mapping_rules : list (string * option string * option string) :=
  [ ("oakhurst", Some "Oakhurst", None);
    ("pleasanton", Some "Personal", None);
    ("san ramon", Some "Personal", None);
    ("dublin", Some "Personal", None);
    ("amazon", None, Some "Amazon");
    ("costco", None, Some "Costco") ].

(** [x if x else ""] for an optional label. *)
Definition label_or_empty (x : option string) : string :=
  match x with
  | Some s => if Str.truthy s then s else ""
  | None => ""
  end.

(** The default database built by the loop over [mapping_rules]. *)
Definition default_db : category_db :=
  let step (acc : list string * list string * list string)
           (rule : string * option string * option string) :=
    let '(ds, bs, rs) := acc in
    let '(desc, business, retailer) := rule in
    (ds ++ [desc], bs ++ [label_or_empty business], rs ++ [label_or_empty retailer]) in
  let '(ds, bs, rs) := fold_left step mapping_rules ([], [], []) in
  Db ds bs rs [].

(** [enumerate(l)] *)
Definition enumerate {A : Type} (l : list A) : list (nat * A) :=
  zip (seq 0 (length l)) l.

(** The comparison key of both sides of [_match_description]:
    [s.lower().replace(" ", "")]. *)
Definition normalize (s : string) : string := Str.remove_spaces (Str.lower s).

(** [_match_description]: indices of the key phrases found in the
    description, both lower-cased and with spaces deleted. *)
Definition _match_description (db : category_db) (description : string) : list nat :=
  let description := Str.lower description in
  fold_left
    (fun matches '(idx, key_phrase) =>
       if Str.contains (Str.remove_spaces (Str.lower key_phrase))
                       (Str.remove_spaces description)
       then matches ++ [idx]
       else matches)
    (enumerate (descriptions db)) [].

(* ===================================================================== *)
(** ** Effects: printing, frames in memory, calls to the matcher *)
(* ===================================================================== *)

(** One record of the table. The cells are kept as the text they hold. *)
Record row : Type := Row {
  Status : string;
  Date : string;
  Description : string;
  Debit : string;
  Credit : string;
  Member_Name : string;
  Business_Type : string;
  Retailer : string
}.

(** The columns of the table: the six required ones and the two added by
    [load_transactions]. *)
Inductive column : Type :=
| Col_Status | Col_Date | Col_Description | Col_Debit | Col_Credit
| Col_Member_Name | Col_Business_Type | Col_Retailer.

(** [row[column]] *)
Definition cell (r : row) (c : column) : string :=
  match c with
  | Col_Status => Status r
  | Col_Date => Date r
  | Col_Description => Description r
  | Col_Debit => Debit r
  | Col_Credit => Credit r
  | Col_Member_Name => Member_Name r
  | Col_Business_Type => Business_Type r
  | Col_Retailer => Retailer r
  end.

(** The row with [value] written in [column]. *)
Definition set_cell (r : row) (c : column) (value : string) : row :=
  match c with
  | Col_Status =>
      Row value (Date r) (Description r) (Debit r) (Credit r) (Member_Name r)
          (Business_Type r) (Retailer r)
  | Col_Date =>
      Row (Status r) value (Description r) (Debit r) (Credit r) (Member_Name r)
          (Business_Type r) (Retailer r)
  | Col_Description =>
      Row (Status r) (Date r) value (Debit r) (Credit r) (Member_Name r)
          (Business_Type r) (Retailer r)
  | Col_Debit =>
      Row (Status r) (Date r) (Description r) value (Credit r) (Member_Name r)
          (Business_Type r) (Retailer r)
  | Col_Credit =>
      Row (Status r) (Date r) (Description r) (Debit r) value (Member_Name r)
          (Business_Type r) (Retailer r)
  | Col_Member_Name =>
      Row (Status r) (Date r) (Description r) (Debit r) (Credit r) value
          (Business_Type r) (Retailer r)
  | Col_Business_Type =>
      Row (Status r) (Date r) (Description r) (Debit r) (Credit r) (Member_Name r)
          value (Retailer r)
  | Col_Retailer =>
      Row (Status r) (Date r) (Description r) (Debit r) (Credit r) (Member_Name r)
          (Business_Type r) value
  end.

(** A [pd.DataFrame]: its rows in order, each with its index label
    ([df.index]). *)
Abbreviation DataFrame := (list (nat * row)).

(** What the processor's methods act on besides their arguments:
    - [frames]: the data frames in memory, a frame's address being its
      position in the list;
    - [stdout]: the lines printed so far;
    - [matcher_calls]: the descriptions [categorize_transaction] has been
      called with so far (a ghost trace: the source keeps no such list). *)
Record world : Type := World {
  frames : list DataFrame;
  stdout : list string;
  matcher_calls : list string
}.

Definition M (A : Type) : Type := world -> A * world.

Definition ret {A : Type} (a : A) : M A := fun w => (a, w).

Definition bind {A B : Type} (m : M A) (k : A -> M B) : M B :=
  fun w => let '(a, w') := m w in k a w'.

Notation "x <- m ;; k" := (bind m (fun x => k))
  (at level 100, m at next level, right associativity).
Notation "m ;;; k" := (bind m (fun _ => k))
  (at level 100, right associativity).

(** [print(line)] *)
Definition print (line : string) : M unit :=
  fun w => (tt, World (frames w) (stdout w ++ [line]) (matcher_calls w)).

(** Ghost: record that the matcher was entered with [description]. *)
Definition enter_matcher (description : string) : M unit :=
  fun w => (tt, World (frames w) (stdout w) (matcher_calls w ++ [description])).

(** [for x in l: s = body(s, x)] *)
Fixpoint for_each {A S : Type} (body : S -> A -> M S) (l : list A) (s : S) : M S :=
  match l with
  | [] => ret s
  | x :: l' => s' <- body s x ;; for_each body l' s'
  end.

(** [categorize_transaction]: the (business_type, retailer) pair of a
    description. *)
Definition categorize_transaction (db : category_db) (description : string)
  : M (string * string) :=
  enter_matcher description ;;;
  if negb (length (descriptions db) =? length (business_labels db)) ||
     negb (length (descriptions db) =? length (retailer_labels db))
  then
    print "Warning: Category database has mismatched list lengths. This may cause errors." ;;;
    print ("Descriptions: " +:+ pretty (length (descriptions db))) ;;;
    print ("Business Labels: " +:+ pretty (length (business_labels db))) ;;;
    print ("Retailer Labels: " +:+ pretty (length (retailer_labels db))) ;;;
    ret ("", "")
  else
    let matches := _match_description db description in
    for_each
      (fun '(business_type, retailer) idx =>
         match business_labels db !! idx, retailer_labels db !! idx with
         | Some b, Some r =>
             let business_type :=
               if Str.truthy b && negb (Str.truthy business_type) then b else business_type in
             let retailer :=
               if Str.truthy r && negb (Str.truthy retailer) then r else retailer in
             ret (business_type, retailer)
         | _, _ =>
             (* idx >= len(business_labels) or idx >= len(retailer_labels) *)
             print ("Warning: Index " +:+ pretty idx +:+ " out of bounds for category database") ;;;
             ret (business_type, retailer)
         end)
      matches ("", "").

Definition empty_world : world := World [] [] [].

(** [df.copy()]: a new frame, at a fresh address, with the rows and labels
    of the frame at [df]. *)
Definition copy (df : nat) : M nat :=
  fun w =>
    (length (frames w),
     World (frames w ++ [default [] (frames w !! df)]) (stdout w) (matcher_calls w)).

(** [df.iterrows()]: the (label, row) pairs of the frame, read once, before
    the loop runs; a later write to the frame does not change them. *)
Definition iterrows (df : nat) : M (list (nat * row)) :=
  fun w => (default [] (frames w !! df), w).

(** [df.at[label, column] = value]: the cell of the row labelled [label];
    pandas writes every row carrying the label when several do. *)
Definition at_set (df : nat) (label : nat) (c : column) (value : string) : M unit :=
  fun w =>
    (tt,
     World
       (alter (map (fun '(l, r) => if l =? label then (l, set_cell r c value) else (l, r)))
              df (frames w))
       (stdout w) (matcher_calls w)).

(** [categorize_transactions]: a copy of the frame at [df] in which the
    empty label cells are filled from the rule database. *)
Definition categorize_transactions (db : category_db) (df : nat) : M nat :=
  result <- copy df ;;
  rows <- iterrows result ;;
  for_each
    (fun (_ : unit) '(i, row) =>
       if negb (Str.truthy (cell row Col_Business_Type)) ||
          negb (Str.truthy (cell row Col_Retailer))
       then
         labels <- categorize_transaction db (cell row Col_Description) ;;
         let '(business, retailer) := labels in
         (* Only update if empty *)
         (if negb (Str.truthy (cell row Col_Business_Type)) && Str.truthy business
          then at_set result i Col_Business_Type business
          else ret tt) ;;;
         (if negb (Str.truthy (cell row Col_Retailer)) && Str.truthy retailer
          then at_set result i Col_Retailer retailer
          else ret tt)
       else ret tt)
    rows tt ;;;
  ret result.

(* ===================================================================== *)
(** ** Loading and saving the rule database *)
(* ===================================================================== *)

(** The exceptions of the code modelled here. *)
Inductive exn : Type :=
| KeyError | TypeError | JSONDecodeError | FileNotFoundError | AttributeError
| UnicodeDecodeError | FileExistsError | NotADirectoryError | IsADirectoryError.

Inductive result (A : Type) : Type :=
| Ok (a : A)
| Raise (e : exn).
Arguments Ok {A} a.
Arguments Raise {A} e.

(** What a regular file holds: the text of a JSON document, given by the
    document ([json.dump] then [json.load] gives back the dictionary, list
    or string dumped); a text [json.load] rejects ([JSONDecodeError]); or
    bytes that are no text in the encoding the file is opened with, so that
    reading it raises [UnicodeDecodeError]. *)
Inductive content : Type :=
| Document (j : json)
| Garbage
| Undecodable.

(** A file system: the paths of its regular files and what they hold.
    Directories are not entries of the store: a regular file stands in the
    way of a directory, nothing else does, and a path that is not in the
    store is taken not to exist. *)
Abbreviation filesystem := (gmap string content).

(** [d[key]] for a dictionary of string keys. *)
Fixpoint assoc (key : string) (o : list (string * json)) : option json :=
  match o with
  | [] => None
  | (k, v) :: o' => if String.eqb k key then Some v else assoc key o'
  end.

(** [db[key]] on what [json.load] returned. *)
Definition getitem (db : json) (key : string) : result json :=
  match db with
  | JObj o => match assoc key o with Some v => Ok v | None => Raise KeyError end
  | _ => Raise TypeError
  end.

(** [len(v)] *)
Definition len (v : json) : result nat :=
  match v with
  | JArr l => Ok (length l)
  | JStr s => Ok (String.length s)
  | JObj o => Ok (length o)
  | _ => Raise TypeError
  end.

(** [len(db[key])] *)
Definition len_of (db : json) (key : string) : result nat :=
  match getitem db key with
  | Ok v => len v
  | Raise e => Raise e
  end.

(** The keys the engine reads. *)
Definition known_keys : list string :=
  ["descriptions"; "business_labels"; "retailer_labels"].

(** A JSON array of strings, as a list of strings. *)
Fixpoint strings_of (l : list json) : option (list string) :=
  match l with
  | [] => Some []
  | JStr s :: l' => match strings_of l' with Some ss => Some (s :: ss) | None => None end
  | _ :: _ => None
  end.

Definition string_list (v : json) : option (list string) :=
  match v with JArr l => strings_of l | _ => None end.

(** The dictionary [o] as a rule database, when its three lists are lists
    of strings; the fields the engine does not read are kept. *)
Definition as_category_db (o : list (string * json)) : option category_db :=
  match assoc "descriptions" o, assoc "business_labels" o, assoc "retailer_labels" o with
  | Some d, Some b, Some r =>
      match string_list d, string_list b, string_list r with
      | Some ds, Some bs, Some rs =>
          Some (Db ds bs rs
                  (List.filter (fun kv => negb (bool_decide (kv.1 ∈ known_keys))) o))
      | _, _, _ => None
      end
  | _, _, _ => None
  end.

(** The dictionary a rule database is. *)
Definition to_json (db : category_db) : json :=
  JObj (("descriptions", JArr (map JStr (descriptions db)))
        :: ("business_labels", JArr (map JStr (business_labels db)))
        :: ("retailer_labels", JArr (map JStr (retailer_labels db)))
        :: other_fields db).

(** What [_load_category_db] comes to: the database it returns, an
    exception it lets through, or a dictionary it returns although one of
    its three lists is not a list of strings (outside the data model; the
    engine is not read on it). *)
Inductive loaded : Type :=
| Loaded (db : category_db)
| Raised (e : exn)
| Untyped.

(** [os.path.dirname(path) != ""] *)
Fixpoint has_directory (path : string) : bool :=
  match path with
  | EmptyString => false
  | String c path' => Ascii.eqb c "/" || has_directory path'
  end.

(** [path[:path.rfind("/") + 1]] *)
Fixpoint head_of (path : string) : string :=
  match path with
  | EmptyString => EmptyString
  | String c path' =>
      if has_directory path' then String c (head_of path')
      else if Ascii.eqb c "/" then String c EmptyString
      else EmptyString
  end.

(** [s.rstrip("/")] *)
Fixpoint rstrip_slashes (s : string) : string :=
  match s with
  | EmptyString => EmptyString
  | String c s' =>
      match rstrip_slashes s' with
      | EmptyString => if Ascii.eqb c "/" then EmptyString else String c EmptyString
      | String _ _ as stripped => String c stripped
      end
  end.

(** [os.path.dirname(path)] of [posixpath]: the text up to the last slash,
    its trailing slashes removed unless it is made of slashes only. *)
Definition dirname (path : string) : string :=
  let head := head_of path in
  match rstrip_slashes head with
  | EmptyString => head
  | String _ _ as stripped => stripped
  end.

(** The directories above [name], nearest first: [os.path.dirname]
    iterated, as [os.makedirs] walks up. *)
Fixpoint parents (fuel : nat) (name : string) : list string :=
  match fuel with
  | 0 => []
  | S fuel' =>
      let head := dirname name in
      if negb (Str.truthy head) || String.eqb head name then []
      else head :: parents fuel' head
  end.

Definition ancestors (name : string) : list string :=
  parents (String.length name) name.

(** [path] is a regular file of the store. *)
Definition is_file (fs : filesystem) (path : string) : bool :=
  match fs !! path with Some _ => true | None => false end.

(** [os.makedirs(name, exist_ok=True)], by the exception it raises, if any.
    The empty name gives [FileNotFoundError]; a regular file above [name]
    gives [NotADirectoryError]; a regular file at [name] gives
    [FileExistsError] (it exists and is no directory). Otherwise the
    directory is there when the call returns. *)
Definition makedirs (fs : filesystem) (name : string) : option exn :=
  if negb (Str.truthy name) then Some FileNotFoundError
  else if existsb (is_file fs) (ancestors name)
  then Some NotADirectoryError
  else if is_file fs name then Some FileExistsError
  else None.

(** [path.split("/")] *)
Fixpoint components (path : string) : list string :=
  match path with
  | EmptyString => [EmptyString]
  | String c path' =>
      if Ascii.eqb c "/" then EmptyString :: components path'
      else match components path' with
           | first :: rest => String c first :: rest
           | [] => [String c EmptyString]
           end
  end.

(** A component that names an entry of its directory: not empty, and
    neither of the two names every directory gives itself and its parent. *)
Definition plain (component : string) : bool :=
  negb (bool_decide (component ∈ [""; "."; ".."])).

(** [path] can only name a directory: it ends with a slash, or with the
    component "." or "..". [open(path, "w")] raises [IsADirectoryError]. *)
Definition names_directory (path : string) : bool :=
  negb (plain (List.last (components path) "")).

(** [path] is written in normal form: every component is plain, a leading
    slash apart. *)
Definition normal_form (path : string) : bool :=
  forallb plain
    match components path with
    | EmptyString :: (_ :: _) as rest => rest
    | all => all
    end.

(** [path] is above a regular file of the store: it is a directory. *)
Definition is_directory (fs : filesystem) (path : string) : bool :=
  existsb (fun file => bool_decide (path ∈ ancestors file))
          (map fst (map_to_list fs)).

(** The tail of [_load_category_db]: the default database, written to
    [category_file] when one is (still) given: [os.makedirs] on the
    directory of the file, then [open(category_file, "w")] and [json.dump].
    Either call may raise; nothing is written then. *)
Definition load_default (fs : filesystem) (category_file : option string)
  : loaded * filesystem :=
  let db := default_db in
  match category_file with
  | Some path =>
      if Str.truthy path then
        match makedirs fs (dirname path) with
        | Some e => (Raised e, fs)
        | None =>
            if names_directory path then (Raised IsADirectoryError, fs)
            else (Loaded db, <[path := Document (to_json db)]> fs)
        end
      else (Loaded db, fs)
  | None => (Loaded db, fs)
  end.

(** [_load_category_db(category_file)]. The three lengths are compared as
    Python chains the comparison: the third is read only when the first two
    agree. [JSONDecodeError] and [KeyError] fall back to the defaults, with
    [category_file] reset; any other exception is let through, the
    [UnicodeDecodeError] of a file that is no text among them. The two
    messages the method prints are left out. *)
Definition _load_category_db (fs : filesystem) (category_file : option string)
  : loaded * filesystem :=
  match category_file with
  | Some path =>
      if Str.truthy path then
        match fs !! path with
        | Some Garbage => load_default fs None            (* JSONDecodeError *)
        | Some Undecodable => (Raised UnicodeDecodeError, fs)
        | Some (Document db) =>
            match len_of db "descriptions" with
            | Raise KeyError => load_default fs None
            | Raise e => (Raised e, fs)
            | Ok n1 =>
                match len_of db "business_labels" with
                | Raise KeyError => load_default fs None
                | Raise e => (Raised e, fs)
                | Ok n2 =>
                    if negb (n1 =? n2) then load_default fs None
                    else
                      match len_of db "retailer_labels" with
                      | Raise KeyError => load_default fs None
                      | Raise e => (Raised e, fs)
                      | Ok n3 =>
                          if negb (n2 =? n3) then load_default fs None
                          else
                            match db with
                            | JObj o =>
                                match as_category_db o with
                                | Some db => (Loaded db, fs)
                                | None => (Untyped, fs)
                                end
                            | _ => (Untyped, fs)
                            end
                      end
                end
            end
        | None => load_default fs category_file         (* no such file *)
        end
      else load_default fs category_file
  | None => load_default fs category_file
  end.

(** [save_category_db(filename)]: [json.dump(self.category_db, f)], the
    file being one that can be written. *)
Definition save_category_db (db : category_db) (filename : string) (fs : filesystem)
  : filesystem :=
  <[filename := Document (to_json db)]> fs.

(** [add_business_type(business_type)]: [pass]. *)
Definition add_business_type (db : category_db) (business_type : string) : category_db :=
  db.

(** The names bound in the body of [class TransactionProcessor]. *)
Definition class_attributes : list string :=
  ["__init__"; "_load_category_db"; "save_category_db"; "add_business_type";
   "load_transactions"; "_match_description"; "categorize_transaction";
   "categorize_transactions"; "find_similar_descriptions"; "save_transactions"].

(** [getattr(processor, name)] on an instance: its own attribute
    [category_db], then the class; [AttributeError] otherwise. *)
Definition getattr (name : string) : result string :=
  if bool_decide (name = "category_db") || bool_decide (name ∈ class_attributes)
  then Ok name
  else Raise AttributeError.

(** A saved document holds the three lists and nothing else. *)
Definition canonical (j : json) : Prop :=
  exists ds bs rs : list json,
    j = JObj [("descriptions", JArr ds); ("business_labels", JArr bs);
              ("retailer_labels", JArr rs)].

(* ===================================================================== *)
(** ** Specification vocabulary of the matcher *)
(* ===================================================================== *)

(** Rule [i] matches [description]: its key phrase, lower-cased and with its
    spaces deleted, occurs in the description treated the same way. *)
Definition matches_rule (db : category_db) (description : string) (i : nat) : Prop :=
  exists key_phrase : string,
    descriptions db !! i = Some key_phrase /\
    Str.substring (normalize key_phrase) (normalize description).

(** [out] is the label, in [labels], of the earliest matching rule that has
    a non-empty one there; the empty string when no matching rule has. *)
Definition earliest_label (db : category_db) (labels : list string)
    (description out : string) : Prop :=
  (exists i : nat,
      matches_rule db description i /\ labels !! i = Some out /\ out <> "" /\
      forall j : nat, j < i -> matches_rule db description j -> labels !! j = Some "")
  \/ (out = "" /\ forall j : nat, matches_rule db description j -> labels !! j = Some "").

(** The label a scan of [ms] settles on. *)
Fixpoint first_label (labels : list string) (ms : list nat) : string :=
  match ms with
  | [] => ""
  | i :: ms' =>
      match labels !! i with
      | Some b => if Str.truthy b then b else first_label labels ms'
      | None => first_label labels ms'
      end
  end.

(** The test of the loop of [_match_description]. *)
Definition phrase_found (description key_phrase : string) : bool :=
  Str.contains (Str.remove_spaces (Str.lower key_phrase))
               (Str.remove_spaces (Str.lower description)).

(** The indices, counted from [a], of the key phrases of [l] found in
    [description]: what the loop of [_match_description] appends. *)
Fixpoint matching_from (description : string) (a : nat) (l : list string) : list nat :=
  match l with
  | [] => []
  | k :: l' =>
      (if phrase_found description k then [a] else [])
      ++ matching_from description (S a) l'
  end.

(** The normalization as the specification words it: lower-casing, then
    deleting every whitespace character. *)
Definition spec_normalize (s : string) : string := Str.remove_whitespace (Str.lower s).

(** Rule [i] matches [description] under [spec_normalize]. *)
Definition matches_rule_any_whitespace (db : category_db) (description : string)
    (i : nat) : Prop :=
  exists key_phrase : string,
    descriptions db !! i = Some key_phrase /\
    Str.substring (spec_normalize key_phrase) (spec_normalize description).

(** The pair [categorize_transaction] returns and the lines it prints: it
    reads nothing of the world. *)
Definition labels_of (db : category_db) (description : string) : string * string :=
  (categorize_transaction db description empty_world).1.

Definition printed_by (db : category_db) (description : string) : list string :=
  stdout (categorize_transaction db description empty_world).2.

(** A row has a label cell left to fill. *)
Definition needs_label (r : row) : bool :=
  negb (Str.truthy (cell r Col_Business_Type)) || negb (Str.truthy (cell r Col_Retailer)).

(** One row after [categorize_transactions]. *)
Definition fill (db : category_db) (r : row) : row :=
  if needs_label r then
    let '(business, retailer) := labels_of db (cell r Col_Description) in
    let r1 :=
      if negb (Str.truthy (cell r Col_Business_Type)) && Str.truthy business
      then set_cell r Col_Business_Type business else r in
    if negb (Str.truthy (cell r Col_Retailer)) && Str.truthy retailer
    then set_cell r1 Col_Retailer retailer else r1
  else r.

(** The labels written, for the row [seen] by the iteration, into the row
    [current] of the frame: the two guarded assignments of the loop of
    [categorize_transactions]. *)
Definition write_labels (db : category_db) (seen current : row) : row :=
  if needs_label seen then
    let '(business, retailer) := labels_of db (cell seen Col_Description) in
    let r1 :=
      if negb (Str.truthy (cell seen Col_Business_Type)) && Str.truthy business
      then set_cell current Col_Business_Type business else current in
    if negb (Str.truthy (cell seen Col_Retailer)) && Str.truthy retailer
    then set_cell r1 Col_Retailer retailer else r1
  else current.

(** A frame after [categorize_transactions], what the call prints and the
    calls it makes to the matcher. *)
Definition fill_frame (db : category_db) (F : DataFrame) : DataFrame :=
  map (fun p => (p.1, fill db p.2)) F.

Definition batch_output (db : category_db) (F : DataFrame) : list string :=
  flat_map
    (fun p => if needs_label p.2 then printed_by db (cell p.2 Col_Description) else [])
    F.

Definition batch_calls (F : DataFrame) : list string :=
  flat_map (fun p => if needs_label p.2 then [cell p.2 Col_Description] else []) F.

(** A computation that only prints. *)
Definition prints_only {A : Type} (m : M A) : Prop :=
  exists (a : A) (out : list string),
    forall w : world, m w = (a, World (frames w) (stdout w ++ out) (matcher_calls w)).

(** What one iteration of [categorize_transactions], over the pair
    ([i], [seen]), does to a (label, row) pair of the frame. *)
Definition relabel (db : category_db) (i : nat) (seen : row) (p : nat * row) : nat * row :=
  if p.1 =? i then (p.1, write_labels db seen p.2) else p.

(* ===================================================================== *)
(** ** The similarity grouper *)
(* ===================================================================== *)

Section Grouper.

(** [SequenceMatcher(None, a, b).ratio()], a function of Python's standard
    library, not of this program: the grouper is read for any such
    function. A finite float is the rational it denotes. *)
Variable ratio : string -> string -> Q.

(** [find_similar_descriptions(df, threshold)]. The method only reads the
    frame, so it is given the frame itself. [indices[i]] is [nth i indices 0]:
    [i] is always a position of the frame. *)
Definition find_similar_descriptions (df : DataFrame) (threshold : Q) : list (list nat) :=
  match df with
  | [] => []                                            (* df.empty *)
  | _ =>
      let descriptions := map (fun p => cell p.2 Col_Description) df in
      let indices := map fst df in
      let '(grouped, groups) :=
        fold_left
          (fun '(grouped, groups) '(i, desc1) =>
             if bool_decide (i ∈ grouped) then (grouped, groups)
             else
               let group := [nth i indices 0] in
               let grouped : gset nat := {[i]} ∪ grouped in
               let '(group, grouped) :=
                 fold_left
                   (fun '(group, grouped) '(j, desc2) =>
                      if (i =? j) || bool_decide (j ∈ grouped) then (group, grouped)
                      else
                        let similarity := ratio desc1 desc2 in
                        if Qle_bool threshold similarity
                        then (group ++ [nth j indices 0], {[j]} ∪ grouped)
                        else (group, grouped))
                   (enumerate descriptions) (group, grouped) in
               if 1 <? length group then (grouped, groups ++ [group])
               else (grouped, groups))
          (enumerate descriptions) ((∅ : gset nat), []) in
      groups
  end.

(** A record joins the group seeded by a record of description [seed]. *)
Definition joins (threshold : Q) (consumed : gset nat) (seed : string)
    (m : nat * (nat * string)) : bool :=
  negb (bool_decide (m.1 ∈ consumed)) && Qle_bool threshold (ratio seed m.2.2).

(** The grouping as the specification words it, over the records given as
    (position, (original index, description)): records are taken in input
    order; one already consumed is skipped; any other seeds a group, and
    every later record not yet consumed whose similarity to the seed reaches
    the threshold joins the group and is consumed; the group is emitted,
    seed first, when it has a member besides its seed. *)
Fixpoint group_spec (threshold : Q) (records : list (nat * (nat * string)))
    (consumed : gset nat) : list (list nat) :=
  match records with
  | [] => []
  | (position, (index, description)) :: later =>
      if bool_decide (position ∈ consumed) then group_spec threshold later consumed
      else
        let members := List.filter (joins threshold consumed description) later in
        let consumed := consumed ∪ list_to_set (map fst members) in
        match members with
        | [] => group_spec threshold later consumed
        | _ :: _ =>
            (index :: map (fun m => m.2.1) members)
            :: group_spec threshold later consumed
        end
  end.

(** The bodies of the two loops of [find_similar_descriptions]. *)
Definition inner_step (indices : list nat) (threshold : Q) (i : nat) (desc1 : string)
    (state : list nat * gset nat) : nat * string -> list nat * gset nat :=
  let '(group, grouped) := state in
  fun item =>
  let '(j, desc2) := item in
  if (i =? j) || bool_decide (j ∈ grouped) then (group, grouped)
  else
    let similarity := ratio desc1 desc2 in
    if Qle_bool threshold similarity
    then (group ++ [nth j indices 0], {[j]} ∪ grouped)
    else (group, grouped).

Definition outer_step (indices : list nat) (descriptions : list string) (threshold : Q)
    (state : gset nat * list (list nat))
  : nat * string -> gset nat * list (list nat) :=
  let '(grouped, groups) := state in
  fun item =>
  let '(i, desc1) := item in
  if bool_decide (i ∈ grouped) then (grouped, groups)
  else
    let group := [nth i indices 0] in
    let grouped : gset nat := {[i]} ∪ grouped in
    let '(group, grouped) :=
      fold_left (inner_step indices threshold i desc1)
                (enumerate descriptions) (group, grouped) in
    if 1 <? length group then (grouped, groups ++ [group])
    else (grouped, groups).

(** The records of a frame, as [group_spec] takes them. *)
Definition records_of (df : DataFrame) : list (nat * (nat * string)) :=
  enumerate (map (fun p => (p.1, cell p.2 Col_Description)) df).

(** The indices that appear in some group. *)
Definition grouped_indices (groups : list (list nat)) : list nat := concat groups.

End Grouper.

(** *** Python's [difflib.SequenceMatcher] *)

Module SequenceMatcher.

(** Length of the longest common prefix. *)
Fixpoint common_prefix (a b : list ascii) : nat :=
  match a, b with
  | x :: a', y :: b' => if Ascii.eqb x y then S (common_prefix a' b') else 0
  | _, _ => 0
  end.

(** The best block starting at [i] in [a], over the starts [j], [j+1], ...
    in [b]; a later block wins only when strictly longer. *)
Fixpoint best_from_b (a_rest : list ascii) (i j : nat) (b_rest : list ascii)
    (best : nat * nat * nat) : nat * nat * nat :=
  match b_rest with
  | [] => best
  | _ :: b' =>
      let k := common_prefix a_rest b_rest in
      best_from_b a_rest i (S j) b' (if best.2 <? k then (i, j, k) else best)
  end.

Fixpoint best_from_a (i : nat) (a_rest b : list ascii) (best : nat * nat * nat)
  : nat * nat * nat :=
  match a_rest with
  | [] => best
  | _ :: a' => best_from_a (S i) a' b (best_from_b a_rest i 0 b best)
  end.

(** [find_longest_match] over the whole of [a] and [b], without junk: the
    longest common block; among the longest, the one starting earliest in
    [a]; among those, the one starting earliest in [b]. *)
Definition find_longest_match (a b : list ascii) : nat * nat * nat :=
  best_from_a 0 a b (0, 0, 0).

(** The number of matched characters, summed over [get_matching_blocks]:
    the longest block, then the same to its left and to its right. *)
Fixpoint matches (fuel : nat) (a b : list ascii) : nat :=
  match fuel with
  | 0 => 0
  | S fuel' =>
      let '(i, j, k) := find_longest_match a b in
      if k =? 0 then 0
      else k + matches fuel' (take i a) (take j b)
             + matches fuel' (drop (i + k) a) (drop (j + k) b)
  end.

(** [SequenceMatcher(None, a, b).ratio()] for sequences of fewer than 200
    elements, below which the matcher discards no popular element:
    [2.0 * matches / (len(a) + len(b))], and [1.0] for two empty strings. *)
Definition ratio (a b : string) : Q :=
  let la := list_ascii_of_string a in
  let lb := list_ascii_of_string b in
  match (length la + length lb)%nat with
  | O => 1%Q
  | S _ as total =>
      Qmake (Z.of_nat (2 * matches (S (length la)) la lb)%nat) (Pos.of_nat total)
  end.

End SequenceMatcher.

(** A block found lies within the first sequence. *)
Definition within (n : nat) (best : nat * nat * nat) : Prop :=
  best.2 = 0 \/ best.1.1 + best.2 <= n.

(** A frame of records with the given descriptions, indexed from 0. *)
Definition frame_of (descriptions : list string) : DataFrame :=
  enumerate (map (fun d => Row "Posted" "2023-01-01" d "10.0" "" "Test User" "" "")
                 descriptions).

(** A frame with a hand-labelled record and an unlabelled one, and a world
    holding it at address 0. *)
Definition sample_frame : DataFrame :=
  [ (0, Row "Posted" "2023-01-01" "AMAZON OAKHURST ORDER" "10.0" "" "Test User" "Manual" "");
    (1, Row "Posted" "2023-01-01" "STARBUCKS PLEASANTON CA" "40.0" "" "Test User" "" "") ].

Definition sample_world : world := World [sample_frame] [] [].

(** A frame in which two rows bear the index label 0, as [pd.concat] of two
    frames gives: the first row has no label yet, the second has both. *)
Definition repeated_label_frame : DataFrame :=
  [ (0, Row "Posted" "2023-01-01" "AMAZON OAKHURST ORDER" "10.0" "" "Test User" "" "");
    (0, Row "Posted" "2023-01-02" "CORNER SHOP" "5.0" "" "Test User" "Manual" "Hand") ].

(* ===================================================================== *)
(** ** Loading a table of transactions *)
(* ===================================================================== *)

(** A cell of a table read by [pd.read_csv]: a text, a number, or the
    not-a-number value that stands for a cell left empty. *)
Inductive value : Type :=
| Str (s : string)
| Num (q : Q)
| NaN.

(** A table as pandas holds it, column by column: the number of its rows
    ([len(df)]) and its columns in order, each with its name and cells. *)
Record table : Type := Table {
  nrows : nat;
  cols : list (string * list value)
}.

(** [df.columns] *)
Definition columns (df : table) : list string := map fst (cols df).

(** [df[name] = v] for a scalar [v]: the column of that name gets [v] in
    every row; a name not yet a column becomes the last column. *)
Definition set_column (df : table) (name : string) (v : value) : table :=
  if bool_decide (name ∈ columns df)
  then Table (nrows df)
             (map (fun c => if String.eqb c.1 name then (c.1, replicate (nrows df) v) else c)
                  (cols df))
  else Table (nrows df) (cols df ++ [(name, replicate (nrows df) v)]).

(** [required_columns] of [load_transactions]. *)
Definition required_columns : list string :=
  ["Status"; "Date"; "Description"; "Debit"; "Credit"; "Member Name"].

(** [sep.join(l)] *)
Fixpoint join (sep : string) (l : list string) : string :=
  match l with
  | [] => ""
  | [x] => x
  | x :: l' => x +:+ sep +:+ join sep l'
  end.

(** What [load_transactions] comes to: the table, or the [ValueError]
    raised with its message. *)
Inductive loaded_table : Type :=
| Frame (df : table)
| ValueError (message : string).

(** [load_transactions], from the table [pd.read_csv(csv_path)] returned. *)
Definition load_transactions (df : table) : loaded_table :=
  let missing_cols :=
    List.filter (fun col => negb (bool_decide (col ∈ columns df))) required_columns in
  match missing_cols with
  | _ :: _ =>
      ValueError ("CSV file missing required columns: " +:+ join ", " missing_cols)
  | [] =>
      let df :=
        if negb (bool_decide ("Business Type" ∈ columns df))
        then set_column df "Business Type" (Str "") else df in
      let df :=
        if negb (bool_decide ("Retailer" ∈ columns df))
        then set_column df "Retailer" (Str "") else df in
      Frame df
  end.

(** [df[name]]: the cells of the first column of that name. *)
Fixpoint column_cells (name : string) (cs : list (string * list value))
  : option (list value) :=
  match cs with
  | [] => None
  | (n, cells) :: cs' => if String.eqb n name then Some cells else column_cells name cs'
  end.

(** Every column has one cell per row. *)
Definition rectangular (df : table) : Prop :=
  Forall (fun c => length c.2 = nrows df) (cols df).

(* ===================================================================== *)
(** ** Counts shown by the user interface *)
(* ===================================================================== *)

(** [df[(df["Business Type"] != "") | (df["Retailer"] != "")].shape[0]]:
    the number of rows with a label (streamlit_app.py, Automatic
    Categorization and Statistics pages). *)
Definition categorized_count (F : DataFrame) : nat :=
  length (List.filter
            (fun p => negb (String.eqb (cell p.2 Col_Business_Type) "") ||
                      negb (String.eqb (cell p.2 Col_Retailer) ""))
            F).

(** A table as read from a file with the six required columns, two rows. *)
Definition sample_table : table :=
  Table 2
    [ ("Status", [Str "Posted"; Str "Posted"]);
      ("Date", [Str "2023-01-01"; Str "2023-01-02"]);
      ("Description", [Str "Amazon Prime Subscription"; Str "Costco Wholesale #123"]);
      ("Debit", [Num (10 # 1); Num (20 # 1)]);
      ("Credit", [NaN; NaN]);
      ("Member Name", [Str "Test User"; Str "Test User"]) ].

(* ===================================================================== *)
(** ** Fragments of the user interface *)
(* ===================================================================== *)

(** [s.endswith(suffix)] *)
Fixpoint ends_with (suffix s : string) : bool :=
  String.eqb s suffix ||
  match s with
  | EmptyString => false
  | String _ s' => ends_with suffix s'
  end.

(** The file name of the Save Results page:
    [if not filename.endswith(".csv"): filename += ".csv"]. *)
Definition output_filename (filename : string) : string :=
  if negb (ends_with ".csv" filename) then filename +:+ ".csv" else filename.

(** [os.path.join(a, b)] of [posixpath]. *)
Definition path_join (a b : string) : string :=
  if Str.starts_with "/" b then b
  else if negb (Str.truthy a) || ends_with "/" a then a +:+ b
  else a +:+ "/" +:+ b.

(** [output_path] of the Save Results page. *)
Definition output_path (filename : string) : string :=
  path_join "output" (output_filename filename).

(** [s.split()]: the maximal runs of characters that are not whitespace,
    in order; [word] is the run being read. *)
Fixpoint split_from (word s : string) : list string :=
  match s with
  | EmptyString => if Str.truthy word then [word] else []
  | String c s' =>
      if Str.is_whitespace c
      then (if Str.truthy word then [word] else []) ++ split_from "" s'
      else split_from (word +:+ String c "") s'
  end.

Definition split (s : string) : list string := split_from "" s.

(** The key phrase the Manual Categorization page takes when none is typed:
    [phrase = description.lower()], then [" ".join(phrase.split()[:2])]. *)
Definition default_key_phrase (description : string) : string :=
  join " " (take 2 (split (Str.lower description))).

(** The strings of a list, one after the other. *)
Definition flatten (l : list string) : string := fold_right String.append "" l.

(** No character of the string is whitespace. *)
Fixpoint no_whitespace (s : string) : bool :=
  match s with
  | EmptyString => true
  | String c s' => negb (Str.is_whitespace c) && no_whitespace s'
  end.

(** The only whitespace character of the string, if any, is the space. *)
Fixpoint spaces_only (s : string) : bool :=
  match s with
  | EmptyString => true
  | String c s' => (negb (Str.is_whitespace c) || Ascii.eqb c " ") && spaces_only s'
  end.

(* ===================================================================== *)
(** ** Strings: the containment test and its declarative reading *)
(* ===================================================================== *)

Section StringFacts.

Lemma starts_with_spec (p s : string) :
  Str.starts_with p s = true <-> exists post : string, s = p +:+ post.
Proof.
  revert s. induction p as [|a p IH]; intros s; simpl.
  - split; [intros _; by exists s | done].
  - destruct s as [|b s]; simpl.
    + split; [done | intros [post H]; discriminate].
    + rewrite andb_true_iff, Ascii.eqb_eq, IH. split.
      * intros [-> [post ->]]. by exists post.
      * intros [post H]. injection H as -> ->. eauto.
Qed.

Lemma contains_spec (needle hay : string) :
  Str.contains needle hay = true <-> Str.substring needle hay.
Proof.
  unfold Str.substring. induction hay as [|c hay IH].
  - cbn [Str.contains]. rewrite orb_false_r, starts_with_spec. split.
    + intros [post H]. by exists "", post.
    + intros [[|? pre] [post H]]; [by exists post | discriminate].
  - cbn [Str.contains]. rewrite orb_true_iff, starts_with_spec, IH. split.
    + intros [[post H] | (pre & post & H)].
      * by exists "", post.
      * exists (String c pre), post. simpl. by rewrite H.
    + intros [[|c' pre] [post H]].
      * left. by exists post.
      * right. injection H as -> H. by exists pre, post.
Qed.

Lemma contains_empty (hay : string) : Str.contains "" hay = true.
Proof. by destruct hay. Qed.

Lemma lower_char_space : Str.lower_char " " = " "%char.
Proof. reflexivity. Qed.

(** A string made of spaces only is still one after lower-casing. *)
Lemma remove_spaces_lower_empty (s : string) :
  Str.remove_spaces s = "" -> Str.remove_spaces (Str.lower s) = "".
Proof.
  induction s as [|c s IH]; [done |]. simpl.
  destruct (Ascii.eqb c " ") eqn:E; [| done].
  apply Ascii.eqb_eq in E as ->. intros H. rewrite lower_char_space. simpl. auto.
Qed.

End StringFacts.

(* ===================================================================== *)
(** ** The matcher *)
(* ===================================================================== *)

Section Matcher.

Variable db : category_db.
Variable description : string.

Lemma match_loop (l : list string) (a : nat) (acc : list nat) :
  fold_left
    (fun matches '(idx, key_phrase) =>
       if Str.contains (Str.remove_spaces (Str.lower key_phrase))
                       (Str.remove_spaces (Str.lower description))
       then matches ++ [idx] else matches)
    (zip (seq a (length l)) l) acc
  = acc ++ matching_from description a l.
Proof.
  revert a acc. induction l as [|k l IH]; intros a acc; simpl.
  - by rewrite app_nil_r.
  - rewrite IH. unfold phrase_found.
    destruct (Str.contains _ _); simpl; [by rewrite <- app_assoc | done].
Qed.

Lemma match_description_unfold :
  _match_description db description = matching_from description 0 (descriptions db).
Proof. unfold _match_description, enumerate. by rewrite match_loop. Qed.

Lemma elem_of_matching_from (l : list string) (a i : nat) :
  i ∈ matching_from description a l <->
  a <= i /\ exists k, l !! (i - a) = Some k /\ phrase_found description k = true.
Proof.
  revert a. induction l as [|k l IH]; intros a; simpl.
  - split; [by intros ?%elem_of_nil | by intros (_ & ? & ? & _)].
  - rewrite elem_of_app, IH. split.
    + intros [H | (Hle & k' & Hk' & Ht)].
      * destruct (phrase_found description k) eqn:E; [| by apply elem_of_nil in H].
        apply list_elem_of_singleton in H as ->. split; [lia |].
        exists k. by rewrite Nat.sub_diag.
      * split; [lia |]. exists k'. split; [| done].
        by replace (i - a) with (S (i - S a)) by lia.
    + intros (Hle & k' & Hk' & Ht).
      destruct (decide (i = a)) as [-> | Hne].
      * left. rewrite Nat.sub_diag in Hk'. injection Hk' as ->.
        rewrite Ht. by apply list_elem_of_singleton.
      * right. split; [lia |]. exists k'. split; [| done].
        by replace (i - a) with (S (i - S a)) in Hk' by lia.
Qed.

Lemma matching_from_sorted (l : list string) (a : nat) :
  StronglySorted lt (matching_from description a l).
Proof.
  revert a. induction l as [|k l IH]; intros a; simpl; [constructor |].
  destruct (phrase_found description k); simpl; [| done].
  constructor; [done |]. apply Forall_forall. intros i Hi.
  apply elem_of_matching_from in Hi. lia.
Qed.

(** Membership in the list returned by [_match_description]. *)
Lemma elem_of_match_description (i : nat) :
  i ∈ _match_description db description <-> matches_rule db description i.
Proof.
  rewrite match_description_unfold, elem_of_matching_from, Nat.sub_0_r.
  unfold matches_rule, normalize, phrase_found. split.
  - intros (_ & k & Hk & Ht). exists k. by rewrite <- contains_spec.
  - intros (k & Hk & Ht). split; [lia |]. exists k. by rewrite contains_spec.
Qed.

Lemma match_description_sorted :
  StronglySorted lt (_match_description db description).
Proof. rewrite match_description_unfold. apply matching_from_sorted. Qed.

Lemma match_description_bound (i : nat) :
  i ∈ _match_description db description -> i < length (descriptions db).
Proof.
  intros (k & Hk & _)%elem_of_match_description. by eapply lookup_lt_Some.
Qed.

End Matcher.

(* ===================================================================== *)
(** ** Resolving the two labels *)
(* ===================================================================== *)

Section Categorize.

Variable db : category_db.

Lemma truthy_true (s : string) : Str.truthy s = true <-> s <> "".
Proof. by destruct s. Qed.

Lemma truthy_false (s : string) : Str.truthy s = false <-> s = "".
Proof. by destruct s. Qed.

(** The loop of [categorize_transaction] over indices that are in range:
    each label, once set, stays; it prints nothing. *)
Lemma categorize_loop (ms : list nat) (business_type retailer : string) (w : world) :
  Forall (fun i => i < length (business_labels db) /\ i < length (retailer_labels db)) ms ->
  for_each
    (fun '(business_type, retailer) idx =>
       match business_labels db !! idx, retailer_labels db !! idx with
       | Some b, Some r =>
           let business_type :=
             if Str.truthy b && negb (Str.truthy business_type) then b else business_type in
           let retailer :=
             if Str.truthy r && negb (Str.truthy retailer) then r else retailer in
           ret (business_type, retailer)
       | _, _ =>
           print ("Warning: Index " +:+ pretty idx +:+ " out of bounds for category database") ;;;
           ret (business_type, retailer)
       end)
    ms (business_type, retailer) w
  = ((if Str.truthy business_type then business_type
      else first_label (business_labels db) ms,
      if Str.truthy retailer then retailer
      else first_label (retailer_labels db) ms), w).
Proof.
  intros Hms. revert business_type retailer.
  induction Hms as [|i ms [Hb Hr] _ IH]; intros business_type retailer.
  - simpl. unfold ret. by destruct business_type, retailer.
  - apply lookup_lt_is_Some in Hb as [b Eb]. apply lookup_lt_is_Some in Hr as [r Er].
    cbn [for_each first_label]. unfold bind at 1. rewrite Eb, Er. unfold ret at 1.
    rewrite IH.
    by destruct business_type, b, retailer, r.
Qed.

Lemma categorize_value (description : string) (w : world) :
  length (descriptions db) = length (business_labels db) ->
  length (descriptions db) = length (retailer_labels db) ->
  categorize_transaction db description w
  = ((first_label (business_labels db) (_match_description db description),
      first_label (retailer_labels db) (_match_description db description)),
     World (frames w) (stdout w) (matcher_calls w ++ [description])).
Proof.
  intros Hb Hr. unfold categorize_transaction, bind, enter_matcher.
  rewrite <- Hb, <- Hr, Nat.eqb_refl. cbn [negb orb].
  rewrite categorize_loop; [done |]. rewrite <- Hb, <- Hr.
  apply Forall_forall. intros i Hi%match_description_bound. lia.
Qed.

(** What [first_label] settles on, over an ascending list in range. *)
Lemma first_label_spec (labels : list string) (ms : list nat) :
  StronglySorted lt ms ->
  Forall (fun i => i < length labels) ms ->
  (exists i : nat,
      i ∈ ms /\ labels !! i = Some (first_label labels ms) /\
      first_label labels ms <> "" /\
      forall j : nat, j < i -> j ∈ ms -> labels !! j = Some "")
  \/ (first_label labels ms = "" /\ forall j : nat, j ∈ ms -> labels !! j = Some "").
Proof.
  induction 1 as [|i ms Hsorted IH Hlt]; intros Hrange.
  - right. split; [done |]. by intros j ?%elem_of_nil.
  - apply Forall_cons in Hrange as [Hi Hrange].
    apply lookup_lt_is_Some in Hi as [b Eb]. cbn [first_label]. rewrite Eb.
    destruct (Str.truthy b) eqn:Tb.
    + left. exists i. split; [apply elem_of_cons; by left |].
      split; [done |]. split; [by apply truthy_true |].
      intros j Hj [-> | Hin]%elem_of_cons; [lia |].
      rewrite Forall_forall in Hlt. apply Hlt in Hin. lia.
    + apply truthy_false in Tb as ->.
      destruct (IH Hrange) as [(i' & Hin & Hl & Hne & Hbefore) | [He Hall]].
      * left. exists i'. split; [apply elem_of_cons; by right |].
        do 2 (split; [done |]).
        intros j Hj [-> | Hjin]%elem_of_cons; [done | by apply Hbefore].
      * right. split; [done |].
        intros j [-> | Hjin]%elem_of_cons; [done | by apply Hall].
Qed.

(** [first_label], over the matches of a description, is the earliest
    label in the sense of [earliest_label]. *)
Lemma first_label_earliest (labels : list string) (description : string) :
  length (descriptions db) = length labels ->
  earliest_label db labels description
    (first_label labels (_match_description db description)).
Proof.
  intros Hlen.
  destruct (first_label_spec labels (_match_description db description))
    as [(i & Hin & Hl & Hne & Hbefore) | [He Hall]].
  - apply match_description_sorted.
  - apply Forall_forall. intros i Hi%match_description_bound. lia.
  - left. exists i. split; [by apply elem_of_match_description |].
    do 2 (split; [done |]).
    intros j Hj Hm. apply Hbefore; [done | by apply elem_of_match_description].
  - right. split; [done |]. intros j Hm. by apply Hall, elem_of_match_description.
Qed.

End Categorize.

(** C2. For a rule database whose three lists have the same length,
    [categorize_transaction] returns, as business type, the business label
    of the lowest-index matching rule that has a non-empty business label
    (the empty string when there is none) and, independently, as retailer,
    the retailer label of the lowest-index matching rule that has a
    non-empty retailer label (the empty string when there is none). *)
Theorem categorize_transaction_first_match_per_field
    (db : category_db) (description : string) (w : world) :
  length (descriptions db) = length (business_labels db) ->
  length (descriptions db) = length (retailer_labels db) ->
  earliest_label db (business_labels db) description
    (categorize_transaction db description w).1.1 /\
  earliest_label db (retailer_labels db) description
    (categorize_transaction db description w).1.2.
Proof.
  intros Hb Hr. rewrite categorize_value by done. cbn [fst snd].
  split; by apply first_label_earliest.
Qed.

Lemma categorize_transaction_first_match_per_field_witness :
  earliest_label default_db (business_labels default_db) "Amazon Prime Subscription"
    (categorize_transaction default_db "Amazon Prime Subscription" empty_world).1.1 /\
  earliest_label default_db (retailer_labels default_db) "Amazon Prime Subscription"
    (categorize_transaction default_db "Amazon Prime Subscription" empty_world).1.2.
Proof.
  apply (categorize_transaction_first_match_per_field
           default_db "Amazon Prime Subscription" empty_world); reflexivity.
Defined.

(** C4. When the three lists of the rule database do not all have the same
    length, [categorize_transaction] returns the pair of empty strings for
    every description, after printing a warning; it touches no frame. *)
Theorem categorize_transaction_mismatched_lengths
    (db : category_db) (description : string) (w : world) :
  ~ (length (descriptions db) = length (business_labels db) /\
     length (descriptions db) = length (retailer_labels db)) ->
  (categorize_transaction db description w).1 = ("", "") /\
  frames (categorize_transaction db description w).2 = frames w /\
  exists more : list string,
    stdout (categorize_transaction db description w).2
    = stdout w ++
      "Warning: Category database has mismatched list lengths. This may cause errors."
      :: more.
Proof.
  intros Hne. unfold categorize_transaction, bind, enter_matcher.
  destruct (negb (length (descriptions db) =? length (business_labels db)) ||
            negb (length (descriptions db) =? length (retailer_labels db))) eqn:E.
  - cbn. repeat split. eexists. rewrite <- !app_assoc. reflexivity.
  - apply orb_false_iff in E as [E1 E2].
    apply negb_false_iff, Nat.eqb_eq in E1, E2. by destruct Hne.
Qed.

Lemma categorize_transaction_mismatched_lengths_witness :
  (categorize_transaction (Db ["amazon"; "costco"] [""] [""; "Costco"] [])
     "Costco Wholesale #123" empty_world).1 = ("", "").
Proof.
  apply (categorize_transaction_mismatched_lengths
           (Db ["amazon"; "costco"] [""] [""; "Costco"] [])
           "Costco Wholesale #123" empty_world).
  simpl. lia.
Defined.

(** C9, as the code has it. [_match_description] returns exactly the
    ascending list of the indices [i] whose key phrase, lower-cased and with
    its space characters (U+0020) deleted, occurs in the description
    lower-cased and with its space characters deleted. Tabs, line breaks and
    other whitespace are kept on both sides. *)
Theorem match_description_ascending_space_insensitive
    (db : category_db) (description : string) :
  StronglySorted lt (_match_description db description) /\
  forall i : nat,
    i ∈ _match_description db description <-> matches_rule db description i.
Proof.
  split; [apply match_description_sorted | apply elem_of_match_description].
Qed.

(** C9, as the specification words it, fails: with every whitespace
    character deleted, the description "san<TAB>ramon" would match the rule
    "san ramon" (index 2 of the default database); the code deletes spaces
    only and reports no match. *)
Lemma match_description_keeps_tabs :
  ~ (forall (db : category_db) (description : string) (i : nat),
        i ∈ _match_description db description
        <-> matches_rule_any_whitespace db description i).
Proof.
  intros H.
  pose proof (proj2 (H default_db ("san" +:+ String "009" "ramon") 2)) as Hin.
  assert (Hm : matches_rule_any_whitespace default_db
                 ("san" +:+ String "009" "ramon") 2).
  { exists "san ramon". split; [reflexivity |]. by exists "", "". }
  apply Hin in Hm. vm_compute in Hm. by apply elem_of_nil in Hm.
Qed.

(** C10. A rule whose key phrase is empty, or made of spaces only, is
    returned by [_match_description] for every description, the empty one
    included; hence, in a database whose three lists have the same length,
    each of its non-empty labels is the result for that field unless an
    earlier matching rule has a non-empty label for the same field. *)
Theorem empty_key_phrase_matches_everything
    (db : category_db) (i : nat) (key_phrase : string) :
  descriptions db !! i = Some key_phrase ->
  Str.remove_spaces key_phrase = "" ->
  forall description : string,
    i ∈ _match_description db description /\
    (length (descriptions db) = length (business_labels db) ->
     length (descriptions db) = length (retailer_labels db) ->
     forall w : world,
       (forall b : string,
           business_labels db !! i = Some b -> b <> "" ->
           (forall j, j < i -> j ∈ _match_description db description ->
                      business_labels db !! j = Some "") ->
           (categorize_transaction db description w).1.1 = b) /\
       (forall r : string,
           retailer_labels db !! i = Some r -> r <> "" ->
           (forall j, j < i -> j ∈ _match_description db description ->
                      retailer_labels db !! j = Some "") ->
           (categorize_transaction db description w).1.2 = r)).
Proof.
  intros Hk Hempty description.
  assert (Hi : matches_rule db description i).
  { exists key_phrase. split; [done |]. unfold normalize.
    rewrite (remove_spaces_lower_empty _ Hempty).
    apply contains_spec, contains_empty. }
  split; [by apply elem_of_match_description |].
  intros Hb Hr w. rewrite categorize_value by done. cbn [fst snd].
  assert (Hfield : forall labels l,
             length (descriptions db) = length labels ->
             labels !! i = Some l -> l <> "" ->
             (forall j, j < i -> j ∈ _match_description db description ->
                        labels !! j = Some "") ->
             first_label labels (_match_description db description) = l).
  { intros labels l Hlen Hl Hne Hbefore.
    destruct (first_label_earliest db labels description Hlen)
      as [(i' & Hm & Hl' & Hne' & Hbefore') | [_ Hall]].
    - destruct (Nat.lt_trichotomy i i') as [Hlt | [-> | Hgt]].
      + specialize (Hbefore' i Hlt Hi). congruence.
      + congruence.
      + apply elem_of_match_description in Hm.
        specialize (Hbefore i' Hgt Hm). congruence.
    - specialize (Hall i Hi). congruence. }
  split; intros l Hl Hne Hbefore; by eapply Hfield.
Qed.

Lemma empty_key_phrase_matches_everything_witness :
  1 ∈ _match_description (Db ["amazon"; "  "] [""; "Misc"] ["Amazon"; ""] []) "".
Proof.
  apply (empty_key_phrase_matches_everything
           (Db ["amazon"; "  "] [""; "Misc"] ["Amazon"; ""] []) 1 "  ");
    reflexivity.
Defined.

(* ===================================================================== *)
(** ** The batch categorizer *)
(* ===================================================================== *)

Lemma prints_only_ret {A : Type} (a : A) : prints_only (ret a).
Proof. exists a, []. intros [fs out calls]. unfold ret. simpl. by rewrite app_nil_r. Qed.

Section PrintsOnly.

Context {A B : Type}.

Lemma prints_only_bind (m : M A) (k : A -> M B) :
  prints_only m -> (forall a, prints_only (k a)) -> prints_only (bind m k).
Proof.
  intros (a & out & Hm) Hk. destruct (Hk a) as (b & out' & Hka).
  exists b, (out ++ out'). intros w. unfold bind.
  rewrite Hm, Hka. simpl. by rewrite app_assoc.
Qed.

Lemma prints_only_for_each (body : B -> A -> M B) (l : list A) (s : B) :
  (forall s x, prints_only (body s x)) -> prints_only (for_each body l s).
Proof.
  intros Hbody. revert s. induction l as [|x l IH]; intros s; simpl.
  - apply prints_only_ret.
  - destruct (Hbody s x) as (s' & out & Hm). destruct (IH s') as (b & out' & Hl).
    exists b, (out ++ out'). intros w. unfold bind. rewrite Hm, Hl. simpl.
    by rewrite app_assoc.
Qed.

End PrintsOnly.

Lemma prints_only_print (line : string) : prints_only (print line).
Proof. by exists tt, [line]. Qed.

Section Batch.

Variable db : category_db.

(** [categorize_transaction] in any world: it returns [labels_of], prints
    [printed_by] and leaves its trace in [matcher_calls]. *)
Lemma categorize_transaction_run (description : string) (w : world) :
  categorize_transaction db description w
  = (labels_of db description,
     World (frames w) (stdout w ++ printed_by db description)
           (matcher_calls w ++ [description])).
Proof.
  assert (H : exists (a : string * string) (out : list string), forall w,
             categorize_transaction db description w
             = (a, World (frames w) (stdout w ++ out) (matcher_calls w ++ [description]))).
  { unfold categorize_transaction.
    match goal with
    | |- context [bind _ (fun _ => ?body)] =>
        assert (Hp : prints_only body)
    end.
    { destruct (_ || _).
      - repeat (apply prints_only_bind; [apply prints_only_print | intros _]).
        apply prints_only_ret.
      - apply prints_only_for_each. intros [bt rt] idx.
        destruct (business_labels db !! idx), (retailer_labels db !! idx);
          first [ apply prints_only_ret
                | apply prints_only_bind;
                  [apply prints_only_print | intros _; apply prints_only_ret] ]. }
    destruct Hp as (a & out & Hp). exists a, out. intros w0.
    unfold bind, enter_matcher. by rewrite Hp. }
  destruct H as (a & out & H). unfold labels_of, printed_by.
  rewrite (H empty_world), (H w). simpl. done.
Qed.

Lemma alter_last {X : Type} (f : X -> X) (fs : list X) (x : X) :
  alter f (length fs) (fs ++ [x]) = fs ++ [f x].
Proof. rewrite alter_app_r_alt by done. by rewrite Nat.sub_diag. Qed.

Lemma relabel_other (i : nat) (seen : row) (F : DataFrame) :
  i ∉ F.*1 -> map (relabel db i seen) F = F.
Proof.
  induction F as [|[l r] F IH]; [done |]. simpl.
  intros Hnot. apply not_elem_of_cons in Hnot as [Hne Hnot].
  unfold relabel at 1. simpl. destruct (Nat.eqb_spec l i); [congruence |].
  by rewrite IH.
Qed.

(** The loop of [categorize_transactions], started after the rows [done]
    have been handled, over a frame whose labels are pairwise distinct. *)
Lemma batch_loop (body : unit -> nat * row -> M unit) (fs : list DataFrame) :
  (forall (i : nat) (seen : row) (w : world),
      body tt (i, seen) w
      = (tt,
         World (alter (map (relabel db i seen)) (length fs) (frames w))
               (stdout w ++
                if needs_label seen then printed_by db (cell seen Col_Description) else [])
               (matcher_calls w ++
                if needs_label seen then [cell seen Col_Description] else []))) ->
  forall (todo done : DataFrame) (out calls : list string),
    NoDup (done ++ todo).*1 ->
    for_each body todo tt (World (fs ++ [fill_frame db done ++ todo]) out calls)
    = (tt,
       World (fs ++ [fill_frame db (done ++ todo)])
             (out ++ batch_output db todo) (calls ++ batch_calls todo)).
Proof.
  intros Hbody. induction todo as [|[i seen] todo IH]; intros done out calls Hnd.
  - simpl. unfold ret. by rewrite !app_nil_r.
  - cbn [for_each]. unfold bind. rewrite Hbody. cbn [frames stdout matcher_calls].
    rewrite alter_last.
    rewrite fmap_app, fmap_cons in Hnd. cbn [fst] in Hnd.
    apply NoDup_app in Hnd as (Hnd1 & Hnd2 & Hnd3).
    apply NoDup_cons in Hnd3 as [Hi Hnd3].
    assert (Hstep : map (relabel db i seen) (fill_frame db done ++ (i, seen) :: todo)
                    = fill_frame db (done ++ [(i, seen)]) ++ todo).
    { rewrite map_app. cbn [map]. rewrite (relabel_other i seen todo Hi).
      rewrite relabel_other.
      - unfold fill_frame. rewrite map_app, <- app_assoc. cbn [map app fst snd].
        unfold relabel. cbn [fst snd]. by rewrite Nat.eqb_refl.
      - unfold fill_frame. rewrite <- list_fmap_compose.
        intros Hin. apply (Hnd2 i); [done | apply elem_of_cons; by left]. }
    rewrite Hstep. rewrite IH.
    + rewrite <- !app_assoc. cbn [batch_output batch_calls flat_map app snd].
      rewrite <- ?app_assoc. reflexivity.
    + rewrite <- app_assoc. cbn [app]. rewrite fmap_app, fmap_cons. cbn [fst].
      apply NoDup_app. split_and!; [done | done | by apply NoDup_cons].
Qed.

Lemma relabel_id (i : nat) (seen : row) (p : nat * row) :
  needs_label seen = false -> relabel db i seen p = p.
Proof.
  intros H. unfold relabel, write_labels. rewrite H.
  destruct p as [l r]. simpl. by destruct (l =? i).
Qed.

(** [categorize_transactions] on a frame whose labels are pairwise distinct:
    the new frame is allocated after the existing ones and holds the filled
    rows; the existing frames are as they were. *)
Lemma categorize_transactions_run (df : nat) (F : DataFrame) (w : world) :
  frames w !! df = Some F ->
  NoDup F.*1 ->
  categorize_transactions db df w
  = (length (frames w),
     World (frames w ++ [fill_frame db F])
           (stdout w ++ batch_output db F) (matcher_calls w ++ batch_calls F)).
Proof.
  intros HF Hnd. unfold categorize_transactions, bind, copy, iterrows.
  cbn [frames stdout matcher_calls]. rewrite HF. cbn [default].
  rewrite list_lookup_middle by done. cbn [default].
  match goal with
  | |- context [for_each ?b] => pose proof (batch_loop b (frames w)) as Hloop
  end.
  rewrite (Hloop) with (done := []); [done | | done].
  clear Hloop. intros i seen w0. unfold needs_label.
  destruct (negb (Str.truthy (cell seen Col_Business_Type)) ||
            negb (Str.truthy (cell seen Col_Retailer))) eqn:Hneed.
  - unfold bind. rewrite categorize_transaction_run.
    assert (Hrel : forall p : nat * row,
               relabel db i seen p
               = (if p.1 =? i
                  then (p.1, write_labels db seen p.2) else p)) by done.
    unfold write_labels, needs_label in Hrel. rewrite Hneed in Hrel.
    destruct (labels_of db (cell seen Col_Description)) as [business retailer].
    destruct (negb (Str.truthy (cell seen Col_Business_Type)) && Str.truthy business),
             (negb (Str.truthy (cell seen Col_Retailer)) && Str.truthy retailer);
      unfold at_set, ret; cbn [frames stdout matcher_calls]; do 2 f_equal;
      rewrite ?list_alter_alter_eq;
      first [ apply list_alter_ext; [intros X _ | done]
            | symmetry; apply list_alter_id; intros X; rewrite <- (map_id X) at 2 ];
      unfold compose; rewrite ?map_map; apply map_ext; intros [l r];
      rewrite Hrel; cbn [fst snd]; destruct (l =? i) eqn:E; cbn; by rewrite ?E.
  - unfold ret. rewrite !app_nil_r.
    rewrite list_alter_id; [by destruct w0 |].
    intros X. rewrite <- (map_id X) at 2. apply map_ext. intros p.
    by apply relabel_id.
Qed.

End Batch.

Section Fill.

Variable db : category_db.

(** A cell that is not an empty label cell is kept by [fill]. *)
Lemma fill_keeps (r : row) (c : column) :
  cell r c <> "" \/ (c <> Col_Business_Type /\ c <> Col_Retailer) ->
  cell (fill db r) c = cell r c.
Proof.
  destruct r as [st da de db' cr mn [|b0 bt] [|r0 rt]]; unfold fill, needs_label;
    cbn [cell Business_Type Retailer Description Str.truthy negb orb andb];
    [ | | | done ];
    destruct (labels_of db de) as [[|b1 business] [|r1 retailer]];
    cbn [Str.truthy andb]; destruct c; cbn; try done;
    intros [H | [H1 H2]]; done.
Qed.

Lemma fill_idempotent (r : row) : fill db (fill db r) = fill db r.
Proof.
  destruct r as [st da de db' cr mn [|b0 bt] [|r0 rt]]; unfold fill, needs_label;
    cbn [cell Business_Type Retailer Description Str.truthy negb orb andb];
    [ | | | done ];
    destruct (labels_of db de) as [[|b1 business] [|r1 retailer]] eqn:HL;
    cbn; rewrite ?HL; done.
Qed.

Lemma fill_frame_labels (F : DataFrame) : (fill_frame db F).*1 = F.*1.
Proof.
  unfold fill_frame. induction F as [|[i r] F IH]; [done |].
  cbn [map]. rewrite !fmap_cons. cbn [fst]. by f_equal.
Qed.

Lemma fill_frame_lookup (F : DataFrame) (k i : nat) (r : row) :
  F !! k = Some (i, r) -> fill_frame db F !! k = Some (i, fill db r).
Proof.
  intros H. unfold fill_frame.
  change (map ?f F) with (f <$> F). by rewrite list_lookup_fmap, H.
Qed.

Lemma fill_frame_idempotent (F : DataFrame) :
  fill_frame db (fill_frame db F) = fill_frame db F.
Proof.
  unfold fill_frame. rewrite map_map. apply map_ext. intros [i r]. simpl.
  by rewrite fill_idempotent.
Qed.

Lemma batch_calls_filter (F : DataFrame) :
  batch_calls F
  = map (fun p => cell p.2 Col_Description) (List.filter (fun p => needs_label p.2) F).
Proof.
  induction F as [|[i r] F IH]; [done |].
  unfold batch_calls in *. cbn [flat_map List.filter snd]. rewrite IH.
  by destruct (needs_label r).
Qed.

End Fill.

(** C5, as the specification words it, fails: rows are written by index
    label ([result.at[i, ...]]), so in a frame where two rows bear one
    label the labels found for the first row are written to the second as
    well, over the labels it had. *)
Lemma categorize_transactions_overwrites_repeated_label :
  ~ (forall (db : category_db) (df : nat) (F : DataFrame) (w : world),
        frames w !! df = Some F ->
        let result := (categorize_transactions db df w).1 in
        let w' := (categorize_transactions db df w).2 in
        frames w !! result = None /\
        (forall (a : nat) (G : DataFrame),
            frames w !! a = Some G -> frames w' !! a = Some G) /\
        (exists F' : DataFrame,
            frames w' !! result = Some F' /\
            F'.*1 = F.*1 /\
            forall (k i : nat) (r : row),
              F !! k = Some (i, r) ->
              exists r' : row,
                F' !! k = Some (i, r') /\
                forall c : column,
                  cell r c <> "" \/ (c <> Col_Business_Type /\ c <> Col_Retailer) ->
                  cell r' c = cell r c) /\
        matcher_calls w'
        = matcher_calls w ++
          map (fun p => cell p.2 Col_Description)
              (List.filter (fun p => needs_label p.2) F)).
Proof.
  intros H.
  destruct (H default_db 0 repeated_label_frame (World [repeated_label_frame] [] [])
              eq_refl) as (_ & _ & (F' & HF' & _ & Hrows) & _).
  vm_compute in HF'. injection HF' as <-.
  destruct (Hrows 1 0
              (Row "Posted" "2023-01-02" "CORNER SHOP" "5.0" "" "Test User" "Manual" "Hand")
              eq_refl) as (r' & Hr' & Hkeep).
  injection Hr' as <-.
  assert (Hset : cell (Row "Posted" "2023-01-02" "CORNER SHOP" "5.0" "" "Test User"
                           "Manual" "Hand") Col_Business_Type <> "")
    by (cbn [cell Business_Type]; discriminate).
  specialize (Hkeep Col_Business_Type (or_introl Hset)).
  cbn [cell Business_Type] in Hkeep. discriminate Hkeep.
Qed.

(** C5, as the code has it. For a frame whose index labels are pairwise
    distinct, [categorize_transactions] returns a new frame and leaves
    every frame already in memory, its input included, as it was. Row by
    row, the new frame carries the labels and rows of the input; every cell
    that was not empty, and every cell of a column other than Business Type
    and Retailer, is unchanged; and the matcher is called exactly for the
    rows that have an empty label cell, in row order, so never for a row
    with both labels set. *)
Theorem categorize_transactions_never_overwrites
    (db : category_db) (df : nat) (F : DataFrame) (w : world) :
  frames w !! df = Some F ->
  NoDup F.*1 ->
  let result := (categorize_transactions db df w).1 in
  let w' := (categorize_transactions db df w).2 in
  frames w !! result = None /\
  (forall (a : nat) (G : DataFrame), frames w !! a = Some G -> frames w' !! a = Some G) /\
  (exists F' : DataFrame,
      frames w' !! result = Some F' /\
      F'.*1 = F.*1 /\
      forall (k i : nat) (r : row),
        F !! k = Some (i, r) ->
        exists r' : row,
          F' !! k = Some (i, r') /\
          forall c : column,
            cell r c <> "" \/ (c <> Col_Business_Type /\ c <> Col_Retailer) ->
            cell r' c = cell r c) /\
  matcher_calls w'
  = matcher_calls w ++
    map (fun p => cell p.2 Col_Description) (List.filter (fun p => needs_label p.2) F).
Proof.
  intros HF Hnd. rewrite (categorize_transactions_run db df F w HF Hnd).
  cbn [fst snd frames matcher_calls]. split_and!.
  - by apply lookup_ge_None.
  - intros a G Ha. by apply lookup_app_l_Some.
  - exists (fill_frame db F). split_and!.
    + by apply list_lookup_middle.
    + apply fill_frame_labels.
    + intros k i r Hk. exists (fill db r).
      split; [by apply fill_frame_lookup | apply fill_keeps].
  - by rewrite batch_calls_filter.
Qed.

Lemma categorize_transactions_never_overwrites_witness :
  frames sample_world !! (categorize_transactions default_db 0 sample_world).1 = None.
Proof.
  apply (categorize_transactions_never_overwrites default_db 0 sample_frame sample_world).
  - reflexivity.
  - apply NoDup_ListNoDup. repeat constructor; simpl; lia.
Defined.

(** C8. Applying [categorize_transactions] to its own result gives a frame
    equal to that result: same labels, same rows (for any rule database, and
    a frame whose index labels are pairwise distinct). *)
Theorem categorize_transactions_idempotent
    (db : category_db) (df : nat) (F : DataFrame) (w : world) :
  frames w !! df = Some F ->
  NoDup F.*1 ->
  let once := categorize_transactions db df w in
  let twice := categorize_transactions db once.1 once.2 in
  exists F' : DataFrame,
    frames once.2 !! once.1 = Some F' /\ frames twice.2 !! twice.1 = Some F'.
Proof.
  intros HF Hnd. cbv zeta.
  rewrite (categorize_transactions_run db df F w HF Hnd). cbn [fst snd].
  assert (H1 : (frames w ++ [fill_frame db F]) !! length (frames w)
               = Some (fill_frame db F)) by by apply list_lookup_middle.
  rewrite (categorize_transactions_run db _ (fill_frame db F)); cbn [frames];
    [ | done | by rewrite fill_frame_labels ].
  cbn [fst snd frames]. exists (fill_frame db F). split; [done |].
  rewrite fill_frame_idempotent. apply list_lookup_middle.
  by rewrite length_app, Nat.add_comm.
Qed.

Lemma categorize_transactions_idempotent_witness :
  exists F' : DataFrame,
    frames (categorize_transactions default_db 0 sample_world).2
      !! (categorize_transactions default_db 0 sample_world).1 = Some F' /\
    frames (categorize_transactions default_db
              (categorize_transactions default_db 0 sample_world).1
              (categorize_transactions default_db 0 sample_world).2).2
      !! (categorize_transactions default_db
            (categorize_transactions default_db 0 sample_world).1
            (categorize_transactions default_db 0 sample_world).2).1 = Some F'.
Proof.
  apply (categorize_transactions_idempotent default_db 0 sample_frame sample_world).
  - reflexivity.
  - apply NoDup_ListNoDup. repeat constructor; simpl; lia.
Defined.

(* ===================================================================== *)
(** ** The similarity grouper *)
(* ===================================================================== *)

Lemma zip_seq_app {X : Type} (l1 l2 : list X) (a : nat) :
  zip (seq a (length (l1 ++ l2))) (l1 ++ l2)
  = zip (seq a (length l1)) l1 ++ zip (seq (a + length l1) (length l2)) l2.
Proof.
  revert a. induction l1 as [|x l1 IH]; intros a; simpl.
  - by rewrite Nat.add_0_r.
  - rewrite IH. by rewrite Nat.add_succ_r.
Qed.

Lemma zip_seq_bounds {X : Type} (l : list X) (a j : nat) (x : X) :
  (j, x) ∈ zip (seq a (length l)) l -> a <= j < a + length l.
Proof.
  revert a. induction l as [|y l IH]; intros a; simpl.
  - by intros ?%elem_of_nil.
  - intros [[= -> _] | H]%elem_of_cons; [lia |].
    apply IH in H. lia.
Qed.

Lemma zip_seq_map_snd {X Y : Type} (l : list (X * Y)) (a : nat) :
  zip (seq a (length (map snd l))) (map snd l)
  = map (fun m : nat * (X * Y) => (m.1, m.2.2)) (zip (seq a (length l)) l).
Proof.
  revert a. induction l as [|[x y] l IH]; intros a; simpl; [done |].
  by rewrite IH.
Qed.

Section GrouperFacts.

Variable ratio : string -> string -> Q.
Variable threshold : Q.

(** The inner loop leaves its state alone over positions that are the
    seed's or already grouped. *)
Lemma inner_skip (indices : list nat) (i : nat) (desc1 : string)
    (items : list (nat * string)) (group : list nat) (grouped : gset nat) :
  Forall (fun item => item.1 = i \/ item.1 ∈ grouped) items ->
  fold_left (inner_step ratio indices threshold i desc1) items (group, grouped)
  = (group, grouped).
Proof.
  induction 1 as [|[j d] items Hj _ IH]; [done |]. cbn [fold_left].
  replace (inner_step ratio indices threshold i desc1 (group, grouped) (j, d))
    with (group, grouped); [done |].
  unfold inner_step. simpl in Hj. destruct Hj as [-> | Hj].
  - by rewrite Nat.eqb_refl.
  - rewrite (bool_decide_eq_true_2 _ Hj). by rewrite orb_true_r.
Qed.

(** [joins] looks at the consumed set only at the record's own position. *)
Lemma filter_joins_ext (G G' : gset nat) (seed : string)
    (records : list (nat * (nat * string))) :
  Forall (fun m => m.1 ∈ G <-> m.1 ∈ G') records ->
  List.filter (joins ratio threshold G seed) records
  = List.filter (joins ratio threshold G' seed) records.
Proof.
  induction 1 as [|m records Hm _ IH]; [done |]. cbn [List.filter].
  rewrite IH. unfold joins at 1 3.
  by rewrite (bool_decide_ext _ _ Hm).
Qed.

(** The inner loop over the records after the seed: the records that join,
    in order, are appended and consumed. *)
Lemma inner_scan (i : nat) (desc1 : string) (later : list (nat * string)) :
  forall (before : list nat) (group : list nat) (grouped : gset nat),
    i < length before ->
    fold_left
      (inner_step ratio (before ++ map fst later) threshold i desc1)
      (zip (seq (length before) (length (map snd later))) (map snd later))
      (group, grouped)
    = (group ++
       map (fun m => m.2.1)
           (List.filter (joins ratio threshold grouped desc1)
                        (zip (seq (length before) (length later)) later)),
       grouped ∪
       list_to_set
         (map fst (List.filter (joins ratio threshold grouped desc1)
                               (zip (seq (length before) (length later)) later)))).
Proof.
  induction later as [|[index desc2] later IH]; intros before group grouped Hi.
  - cbn. rewrite app_nil_r. f_equal. set_solver.
  - cbn [map length seq zip zip_with fold_left List.filter fst snd].
    assert (Hnth : nth (length before) (before ++ index :: map fst later) 0 = index)
      by apply nth_middle.
    assert (Hrest : before ++ index :: map fst later
                    = (before ++ [index]) ++ map fst later)
      by by rewrite <- app_assoc.
    assert (Hlen : length (before ++ [index]) = S (length before))
      by (rewrite length_app; simpl; lia).
    unfold inner_step at 2. cbn [fst snd].
    replace (i =? length before) with false by (symmetry; apply Nat.eqb_neq; lia).
    cbn [orb].
    assert (Hj : joins ratio threshold grouped desc1 (length before, (index, desc2))
                 = negb (bool_decide (length before ∈ grouped)) &&
                   Qle_bool threshold (ratio desc1 desc2)) by done.
    rewrite Hj.
    destruct (bool_decide (length before ∈ grouped)) eqn:Hin; cbn [negb andb].
    + rewrite Hrest, <- Hlen. apply IH. lia.
    + destruct (Qle_bool threshold (ratio desc1 desc2)) eqn:Hsim.
      * rewrite Hnth. rewrite Hrest, <- Hlen. rewrite IH by lia. rewrite Hlen.
        rewrite (filter_joins_ext ({[length before]} ∪ grouped) grouped).
        -- cbn [map fst snd]. rewrite <- app_assoc. cbn [app]. f_equal.
           rewrite list_to_set_cons. set_solver.
        -- apply Forall_forall. intros [j [l d]] Hm.
           apply zip_seq_bounds in Hm. cbn [fst].
           rewrite elem_of_union, elem_of_singleton. split; [| tauto].
           intros [-> | H]; [lia | done].
      * rewrite Hrest, <- Hlen. apply IH. lia.
Qed.

Lemma group_spec_cons (position index : nat) (description : string)
    (later : list (nat * (nat * string))) (consumed : gset nat) :
  group_spec ratio threshold ((position, (index, description)) :: later) consumed
  = if bool_decide (position ∈ consumed) then group_spec ratio threshold later consumed
    else
      match List.filter (joins ratio threshold consumed description) later with
      | [] =>
          group_spec ratio threshold later
            (consumed ∪
             list_to_set
               (map fst (List.filter (joins ratio threshold consumed description) later)))
      | m :: members =>
          (index :: map (fun m => m.2.1) (m :: members))
          :: group_spec ratio threshold later
               (consumed ∪
                list_to_set
                  (map fst (List.filter (joins ratio threshold consumed description)
                                        later)))
      end.
Proof.
  cbn [group_spec].
  by destruct (List.filter (joins ratio threshold consumed description) later).
Qed.

(** The outer loop over the records from position [length before] on,
    against [group_spec]: the set [grouped] of the code holds every earlier
    position, and agrees with [consumed] from there on. *)
Lemma outer_scan (records : list (nat * string)) :
  forall (later before : list (nat * string)) (grouped consumed : gset nat)
         (groups : list (list nat)),
    records = before ++ later ->
    (forall j, j < length before -> j ∈ grouped) ->
    (forall j, length before <= j -> j ∈ grouped <-> j ∈ consumed) ->
    (fold_left
       (outer_step ratio (map fst records) (map snd records) threshold)
       (zip (seq (length before) (length (map snd later))) (map snd later))
       (grouped, groups)).2
    = groups ++
      group_spec ratio threshold (zip (seq (length before) (length later)) later)
                 consumed.
Proof.
  induction later as [|[index desc1] later IH];
    intros before grouped consumed groups Hrec Hbefore Hagree.
  - cbn. by rewrite app_nil_r.
  - cbn [map length seq zip zip_with fold_left fst snd].
    rewrite group_spec_cons.
    assert (Hrec' : records = (before ++ [(index, desc1)]) ++ later)
      by by rewrite <- app_assoc.
    assert (Hlen : length (before ++ [(index, desc1)]) = S (length before))
      by (rewrite length_app; simpl; lia).
    unfold outer_step at 2.
    rewrite <- (bool_decide_ext _ _ (Hagree (length before) (le_n _))).
    destruct (bool_decide (length before ∈ grouped)) eqn:Hin.
    + rewrite <- Hlen. apply IH; [done | |].
      * intros j Hj. rewrite Hlen in Hj.
        destruct (decide (j = length before)) as [-> | Hne].
        -- by apply bool_decide_eq_true in Hin.
        -- apply Hbefore. lia.
      * intros j Hj. apply Hagree. lia.
    + (* the inner loop: nothing before the seed, nor the seed, joins *)
      assert (Hnth : nth (length before) (map fst records) 0 = index).
      { rewrite Hrec, map_app. cbn [map fst].
        rewrite <- (length_map fst before). apply nth_middle. }
      assert (Henum : enumerate (map snd records)
                      = zip (seq 0 (length (map snd before))) (map snd before) ++
                        (length before, desc1)
                        :: zip (seq (S (length before)) (length (map snd later)))
                               (map snd later)).
      { unfold enumerate. rewrite Hrec, map_app, zip_seq_app. cbn [map snd].
        cbn [length seq zip zip_with]. by rewrite Nat.add_0_l, length_map. }
      rewrite Henum. clear Henum.
      rewrite fold_left_app. rewrite inner_skip.
      2:{ apply Forall_forall. intros [j d] Hj. apply zip_seq_bounds in Hj.
          cbn [fst]. right. rewrite length_map in Hj.
          apply elem_of_union_r, Hbefore. lia. }
      cbn [fold_left]. unfold inner_step at 2. rewrite Nat.eqb_refl. cbn [orb].
      rewrite Hnth.
      pose proof (inner_scan (length before) desc1 later
                    (map fst (before ++ [(index, desc1)])) [index]
                    ({[length before]} ∪ grouped)) as Hscan.
      rewrite (length_map fst (before ++ _)), Hlen in Hscan.
      replace (map fst (before ++ [(index, desc1)]) ++ map fst later)
        with (map fst records) in Hscan
        by (rewrite Hrec' at 1; by rewrite !map_app).
      rewrite Hscan by lia. clear Hscan.
      rewrite (filter_joins_ext ({[length before]} ∪ grouped) consumed).
      2:{ apply Forall_forall. intros [j [l d]] Hm.
          apply zip_seq_bounds in Hm. cbn [fst].
          rewrite elem_of_union, elem_of_singleton, <- Hagree by lia.
          split; [intros [-> | H]; [lia | done] | tauto]. }
      set (members := List.filter (joins ratio threshold consumed desc1)
                        (zip (seq (S (length before)) (length later)) later)).
      assert (Hnext : forall groups',
                 (fold_left
                    (outer_step ratio (map fst records) (map snd records) threshold)
                    (zip (seq (S (length before)) (length (map snd later)))
                         (map snd later))
                    ({[length before]} ∪ grouped ∪ list_to_set (map fst members),
                     groups')).2
                 = groups' ++
                   group_spec ratio threshold
                     (zip (seq (S (length before)) (length later)) later)
                     (consumed ∪ list_to_set (map fst members))).
      { intros groups'. rewrite <- Hlen. apply IH; [done | |].
        - intros j Hj. rewrite Hlen in Hj.
          destruct (decide (j = length before)) as [-> | Hne].
          + apply elem_of_union_l, elem_of_union_l. by apply elem_of_singleton.
          + apply elem_of_union_l, elem_of_union_r, Hbefore. lia.
        - intros j Hj. rewrite Hlen in Hj.
          rewrite !elem_of_union, elem_of_singleton, <- Hagree by lia.
          split; [intros [[-> | H] | H]; [lia | tauto | tauto] | tauto]. }
      destruct members as [|m members]; cbn [map app length Nat.ltb Nat.leb].
      * apply Hnext.
      * rewrite Hnext. by rewrite <- app_assoc.
Qed.

(** The code's two nested loops compute [group_spec]. *)
Lemma find_similar_descriptions_refines (df : DataFrame) :
  find_similar_descriptions ratio df threshold
  = group_spec ratio threshold (records_of df) ∅.
Proof.
  destruct df as [|p df]; [done |].
  set (frame := p :: df).
  set (records := map (fun p : nat * row => (p.1, cell p.2 Col_Description)) frame).
  assert (Hfst : map fst records = map fst frame).
  { unfold records. rewrite map_map. by apply map_ext. }
  assert (Hsnd : map snd records = map (fun p => cell p.2 Col_Description) frame).
  { unfold records. rewrite map_map. by apply map_ext. }
  transitivity
    (fold_left
       (outer_step ratio (map fst frame)
          (map (fun p => cell p.2 Col_Description) frame) threshold)
       (enumerate (map (fun p => cell p.2 Col_Description) frame))
       ((∅ : gset nat), [])).2; [reflexivity |].
  rewrite <- Hfst, <- Hsnd.
  apply (outer_scan records records [] ∅ ∅ []); [done | | done].
  intros j Hj. simpl in Hj. lia.
Qed.

Lemma group_spec_sizes (records : list (nat * (nat * string))) :
  forall (consumed : gset nat) (g : list nat),
    g ∈ group_spec ratio threshold records consumed -> 2 <= length g.
Proof.
  induction records as [|[position [index description]] later IH];
    intros consumed g; [by intros ?%elem_of_nil |].
  rewrite group_spec_cons. destruct (bool_decide _); [apply IH |].
  destruct (List.filter _ later) as [|m members]; [apply IH |].
  intros [-> | H]%elem_of_cons; [simpl; lia | by eapply IH].
Qed.

Lemma group_spec_indices (records : list (nat * (nat * string))) :
  forall (consumed : gset nat) (g : list nat) (x : nat),
    g ∈ group_spec ratio threshold records consumed -> x ∈ g ->
    x ∈ map (fun m : nat * (nat * string) => m.2.1) records.
Proof.
  induction records as [|[position [index description]] later IH];
    intros consumed g x; [by intros ?%elem_of_nil |].
  rewrite group_spec_cons. cbn [map fst snd].
  destruct (bool_decide _).
  { intros Hg Hx. apply elem_of_cons. right. by eapply IH. }
  destruct (List.filter _ later) as [|m members] eqn:Hmem.
  { intros Hg Hx. apply elem_of_cons. right. by eapply IH. }
  intros [-> | Hg]%elem_of_cons Hx.
  - apply elem_of_cons in Hx as [-> | Hx]; [apply elem_of_cons; by left |].
    apply elem_of_cons. right.
    apply list_elem_of_In in Hx.
    change (In x (map (fun m : nat * (nat * string) => m.2.1) (m :: members))) in Hx.
    apply in_map_iff in Hx as (m' & <- & Hin).
    rewrite <- Hmem in Hin. apply filter_In in Hin as [Hin _].
    apply list_elem_of_In.
    by apply (in_map (fun m : nat * (nat * string) => m.2.1)).
  - apply elem_of_cons. right. by eapply IH.
Qed.

End GrouperFacts.

(** C3. [find_similar_descriptions] is the greedy, single-pass, seed-based
    grouping of [group_spec]: records are taken in input order, a consumed
    record is skipped, any other seeds a group which every later record not
    yet consumed and similar enough to the seed joins; a group is returned,
    seed first and members in input order, only when it has at least two
    indices; groups come in the order of their seeds, and every index
    returned is an index label of the frame. *)
Theorem find_similar_descriptions_greedy_seed_grouping
    (ratio : string -> string -> Q) (df : DataFrame) (threshold : Q) :
  find_similar_descriptions ratio df threshold
  = group_spec ratio threshold (records_of df) ∅ /\
  forall g : list nat,
    g ∈ find_similar_descriptions ratio df threshold ->
    2 <= length g /\ forall x : nat, x ∈ g -> x ∈ df.*1.
Proof.
  split; [apply find_similar_descriptions_refines |].
  intros g. rewrite find_similar_descriptions_refines. intros Hg.
  split; [by eapply group_spec_sizes |].
  intros x Hx.
  pose proof (group_spec_indices _ _ _ _ _ _ Hg Hx) as Hin.
  unfold records_of, enumerate in Hin.
  rewrite <- (map_map snd fst) in Hin.
  change (map snd ?l) with (l.*2) in Hin.
  rewrite snd_zip in Hin by (by rewrite length_seq).
  rewrite map_map in Hin. exact Hin.
Qed.

Lemma filter_nil_weaken {X : Type} (f g : X -> bool) (l : list X) :
  (forall x, g x = true -> f x = true) ->
  List.filter f l = [] -> List.filter g l = [].
Proof.
  intros Hfg. induction l as [|x l IH]; [done |]. cbn [List.filter].
  destruct (f x) eqn:Hf; [done |]. intros Hl.
  destruct (g x) eqn:Hg; [| by apply IH].
  apply Hfg in Hg. congruence.
Qed.

Lemma joins_weaken (ratio : string -> string -> Q) (t1 t2 : Q)
    (consumed : gset nat) (seed : string) (m : nat * (nat * string)) :
  (t1 <= t2)%Q ->
  joins ratio t2 consumed seed m = true -> joins ratio t1 consumed seed m = true.
Proof.
  intros Hle. unfold joins. rewrite !andb_true_iff, !Qle_bool_iff.
  intros [Hm Hr]. split; [done |]. by eapply Qle_trans.
Qed.

(** When no group comes out at the lower threshold, none does at the
    higher one. *)
Lemma group_spec_nil_mono (ratio : string -> string -> Q) (t1 t2 : Q)
    (records : list (nat * (nat * string))) :
  (t1 <= t2)%Q ->
  forall consumed : gset nat,
    group_spec ratio t1 records consumed = [] ->
    group_spec ratio t2 records consumed = [].
Proof.
  intros Hle. induction records as [|[position [index description]] later IH];
    intros consumed; [done |].
  rewrite !group_spec_cons. destruct (bool_decide _); [apply IH |].
  destruct (List.filter (joins ratio t1 consumed description) later) eqn:H1;
    [| done].
  rewrite (filter_nil_weaken _ (joins ratio t2 consumed description) _
             (fun m => joins_weaken ratio t1 t2 consumed description m Hle) H1).
  apply IH.
Qed.

(** *** The fuel of [SequenceMatcher.matches] is enough *)

Section SequenceMatcherFuel.

Import SequenceMatcher.

Lemma common_prefix_bound (a b : list ascii) : common_prefix a b <= length a.
Proof.
  revert b. induction a as [|x a IH]; intros [|y b]; simpl; try lia.
  destruct (Ascii.eqb x y); [specialize (IH b) |]; lia.
Qed.

Lemma best_from_b_within (n : nat) (a_rest b_rest : list ascii) (i : nat) :
  i + length a_rest <= n ->
  forall (j : nat) (best : nat * nat * nat),
    within n best -> within n (best_from_b a_rest i j b_rest best).
Proof.
  intros Hi. induction b_rest as [|y b_rest IH]; intros j best Hbest; [done |].
  cbn [best_from_b]. apply IH.
  destruct (best.2 <? common_prefix a_rest (y :: b_rest)); [| done].
  right. cbn [fst snd].
  pose proof (common_prefix_bound a_rest (y :: b_rest)). lia.
Qed.

Lemma best_from_a_within (n : nat) (b : list ascii) (a_rest : list ascii) :
  forall (i : nat) (best : nat * nat * nat),
    i + length a_rest <= n ->
    within n best -> within n (best_from_a i a_rest b best).
Proof.
  induction a_rest as [|x a_rest IH]; intros i best Hi Hbest; [done |].
  cbn [best_from_a]. apply IH; [simpl in Hi; lia |].
  by apply best_from_b_within.
Qed.

Lemma find_longest_match_within (a b : list ascii) :
  within (length a) (find_longest_match a b).
Proof. apply best_from_a_within; [simpl; lia | by left]. Qed.

(** Any fuel above the length of the first sequence gives the same count:
    the recursion has stopped by then. *)
Lemma matches_fuel (fuel : nat) :
  forall (fuel' : nat) (a b : list ascii),
    length a < fuel -> length a < fuel' ->
    matches fuel a b = matches fuel' a b.
Proof.
  induction fuel as [|fuel IH]; intros fuel' a b Hf Hf'; [lia |].
  destruct fuel' as [|fuel']; [lia |]. cbn [matches].
  pose proof (find_longest_match_within a b) as Hw.
  destruct (find_longest_match a b) as [[i j] k]. unfold within in Hw. cbn [fst snd] in Hw.
  destruct (Nat.eqb_spec k 0) as [-> | Hk]; [done |].
  destruct Hw as [-> | Hw]; [done |].
  rewrite (IH fuel' (take i a) (take j b)), (IH fuel' (drop (i + k) a) (drop (j + k) b));
    [done | | | |]; rewrite ?length_take, ?length_drop; lia.
Qed.

End SequenceMatcherFuel.

Section Maximality.

Variable ratio : string -> string -> Q.

(** Every group returned is a seed followed by records that come after it
    and are similar enough to it. *)
Lemma group_spec_sound (t : Q) (records : list (nat * (nat * string))) :
  forall (consumed : gset nat) (g : list nat),
    g ∈ group_spec ratio t records consumed ->
    exists (R1 R2 members : list (nat * (nat * string)))
           (p s : nat) (d : string),
      records = R1 ++ (p, (s, d)) :: R2 /\
      g = s :: map (fun m : nat * (nat * string) => m.2.1) members /\
      members <> [] /\
      forall m, m ∈ members -> m ∈ R2 /\ Qle_bool t (ratio d m.2.2) = true.
Proof.
  induction records as [|[position [index description]] later IH];
    intros consumed g; [by intros ?%elem_of_nil |].
  rewrite group_spec_cons.
  assert (Hrest : forall consumed',
             g ∈ group_spec ratio t later consumed' ->
             exists (R1 R2 members : list (nat * (nat * string)))
                    (p s : nat) (d : string),
               (position, (index, description)) :: later = R1 ++ (p, (s, d)) :: R2 /\
               g = s :: map (fun m : nat * (nat * string) => m.2.1) members /\
               members <> [] /\
               forall m, m ∈ members -> m ∈ R2 /\ Qle_bool t (ratio d m.2.2) = true).
  { intros consumed' Hg.
    destruct (IH consumed' g Hg) as (R1 & R2 & members & p & s & d & -> & H).
    by exists ((position, (index, description)) :: R1), R2, members, p, s, d. }
  destruct (bool_decide _); [apply Hrest |].
  destruct (List.filter _ later) as [|m members] eqn:Hmem; [apply Hrest |].
  intros [-> | Hg]%elem_of_cons; [| by eapply Hrest].
  exists [], later, (m :: members), position, index, description.
  split_and!; [done | done | done |].
  intros m' Hm'. rewrite <- Hmem in Hm'.
  apply list_elem_of_In, filter_In in Hm' as [Hin Hj].
  split; [by apply list_elem_of_In |].
  unfold joins in Hj. by apply andb_true_iff in Hj as [_ Hj].
Qed.

(** Of two records not consumed, the first similar enough to the second
    that comes after it, one at least ends up in a group. *)
Lemma group_spec_maximal (t : Q) (R1 : list (nat * (nat * string))) :
  forall (R2 : list (nat * (nat * string))) (consumed : gset nat)
         (p s p' m : nat) (d d' : string),
    NoDup (R1 ++ (p, (s, d)) :: R2).*1 ->
    (p', (m, d')) ∈ R2 ->
    p ∉ consumed -> p' ∉ consumed ->
    Qle_bool t (ratio d d') = true ->
    s ∈ concat (group_spec ratio t (R1 ++ (p, (s, d)) :: R2) consumed) \/
    m ∈ concat (group_spec ratio t (R1 ++ (p, (s, d)) :: R2) consumed).
Proof.
  induction R1 as [|[q [l e]] R1 IH];
    intros R2 consumed p s p' m d d' Hnd Hin Hp Hp' Hsim.
  - cbn [app]. rewrite group_spec_cons.
    rewrite (bool_decide_eq_false_2 _ Hp).
    assert (Hm : In (p', (m, d')) (List.filter (joins ratio t consumed d) R2)).
    { apply filter_In. split; [by apply list_elem_of_In |].
      unfold joins. cbn [fst snd]. rewrite (bool_decide_eq_false_2 _ Hp'). by rewrite Hsim. }
    destruct (List.filter _ R2) as [|x members]; [done |].
    left. cbn [concat]. apply elem_of_app. left. apply elem_of_cons. by left.
  - cbn [app]. rewrite group_spec_cons.
    cbn [app] in Hnd. rewrite fmap_cons in Hnd. cbn [fst] in Hnd.
    apply NoDup_cons in Hnd as [Hq Hnd].
    destruct (bool_decide (q ∈ consumed));
      [by apply (IH R2 consumed p s p' m d d') |].
    set (members := List.filter (joins ratio t consumed e) (R1 ++ (p, (s, d)) :: R2)).
    assert (Hunique : forall (x : nat) (y z : nat * string),
               (x, y) ∈ R1 ++ (p, (s, d)) :: R2 ->
               (x, z) ∈ R1 ++ (p, (s, d)) :: R2 -> y = z).
    { intros x y z Hy Hz.
      apply list_elem_of_lookup in Hy as [i Hy].
      apply list_elem_of_lookup in Hz as [j Hz].
      assert (i = j) as ->.
      { eapply NoDup_lookup; [exact Hnd | |];
          rewrite list_lookup_fmap; [by rewrite Hy | by rewrite Hz]. }
      congruence. }
    assert (Hgroup : forall (x : nat) (y : nat * string),
               (x, y) ∈ R1 ++ (p, (s, d)) :: R2 ->
               x ∈ (list_to_set (map fst members) : gset nat) ->
               y.1 ∈ map (fun m : nat * (nat * string) => m.2.1) members).
    { intros x y Hy Hx. apply elem_of_list_to_set in Hx.
      apply list_elem_of_In, in_map_iff in Hx as ([x' z] & Hfst & Hz).
      cbn [fst] in Hfst. subst x'.
      assert (Hz' := Hz). apply filter_In in Hz' as [Hz' _].
      apply list_elem_of_In in Hz'. rewrite (Hunique x y z Hy Hz').
      apply list_elem_of_In.
      by apply (in_map (fun m : nat * (nat * string) => m.2.1) _ (x, z)). }
    assert (Hp_in : (p, (s, d)) ∈ R1 ++ (p, (s, d)) :: R2).
    { apply elem_of_app. right. apply elem_of_cons. by left. }
    assert (Hp'_in : (p', (m, d')) ∈ R1 ++ (p, (s, d)) :: R2).
    { apply elem_of_app. right. apply elem_of_cons. by right. }
    destruct (decide (p ∈ (list_to_set (map fst members) : gset nat))) as [Hpc | Hpc].
    { left. specialize (Hgroup p (s, d) Hp_in Hpc). cbn [fst] in Hgroup.
      destruct members as [|x members']; [by apply elem_of_nil in Hgroup |].
      cbn [concat]. apply elem_of_app. left. apply elem_of_cons. by right. }
    destruct (decide (p' ∈ (list_to_set (map fst members) : gset nat))) as [Hpc' | Hpc'].
    { right. specialize (Hgroup p' (m, d') Hp'_in Hpc'). cbn [fst] in Hgroup.
      destruct members as [|x members']; [by apply elem_of_nil in Hgroup |].
      cbn [concat]. apply elem_of_app. left. apply elem_of_cons. by right. }
    assert (Hnext :
              s ∈ concat (group_spec ratio t (R1 ++ (p, (s, d)) :: R2)
                            (consumed ∪ list_to_set (map fst members))) \/
              m ∈ concat (group_spec ratio t (R1 ++ (p, (s, d)) :: R2)
                            (consumed ∪ list_to_set (map fst members)))).
    { apply (IH R2 _ p s p' m d d'); try done; by apply not_elem_of_union. }
    destruct members as [|x members']; [done |].
    cbn [concat]. rewrite !elem_of_app. tauto.
Qed.

End Maximality.

Lemma records_of_positions (df : DataFrame) : NoDup (records_of df).*1.
Proof.
  unfold records_of, enumerate. rewrite fst_zip by (by rewrite length_seq).
  apply NoDup_seq.
Qed.

(** C7, as the code has it. For [t1 <= t2], every group returned at [t2]
    is a seed followed by at least one member, and of the seed and any one
    of its members, one at least is in some group returned at [t1]; so an
    output that is not empty at [t2] is not empty at [t1]. *)
Theorem find_similar_descriptions_threshold_weakly_monotone
    (ratio : string -> string -> Q) (df : DataFrame) (t1 t2 : Q) :
  (t1 <= t2)%Q ->
  (forall g : list nat,
      g ∈ find_similar_descriptions ratio df t2 ->
      exists (seed : nat) (members : list nat),
        g = seed :: members /\ members <> [] /\
        forall m : nat,
          m ∈ members ->
          seed ∈ grouped_indices (find_similar_descriptions ratio df t1) \/
          m ∈ grouped_indices (find_similar_descriptions ratio df t1)) /\
  (find_similar_descriptions ratio df t2 <> [] ->
   find_similar_descriptions ratio df t1 <> []).
Proof.
  intros Hle. split.
  - intros g. rewrite !find_similar_descriptions_refines. intros Hg.
    destruct (group_spec_sound ratio t2 _ _ _ Hg)
      as (R1 & R2 & members & p & s & d & Hrec & -> & Hne & Hmem).
    exists s, (map (fun m : nat * (nat * string) => m.2.1) members).
    split; [done |]. split; [by destruct members |].
    intros m Hm. apply list_elem_of_In, in_map_iff in Hm as ([p' [m' d']] & <- & Hin).
    apply list_elem_of_In, Hmem in Hin as [Hin Hsim]. cbn [fst snd] in *.
    unfold grouped_indices. rewrite Hrec.
    apply (group_spec_maximal ratio t1 R1 R2 ∅ p s p' m' d d').
    + rewrite <- Hrec. apply records_of_positions.
    + done.
    + apply not_elem_of_empty.
    + apply not_elem_of_empty.
    + apply Qle_bool_iff. apply Qle_bool_iff in Hsim. by eapply Qle_trans.
  - intros H2 H1. apply H2. rewrite find_similar_descriptions_refines in *.
    by eapply group_spec_nil_mono.
Qed.

Lemma find_similar_descriptions_threshold_weakly_monotone_witness :
  find_similar_descriptions SequenceMatcher.ratio
    (frame_of ["SHELL"; "SHELL OIL 5744"; " OIL 5744"]) (1 # 2)%Q <> [].
Proof.
  apply (find_similar_descriptions_threshold_weakly_monotone SequenceMatcher.ratio
           (frame_of ["SHELL"; "SHELL OIL 5744"; " OIL 5744"]) (1 # 2)%Q (6 # 10)%Q).
  - unfold Qle. simpl. lia.
  - vm_compute. discriminate.
Defined.

(** C7, as the specification words it, fails. Of the descriptions "SHELL",
    "SHELL OIL 5744", " OIL 5744", the second and third are grouped at
    threshold 0.6 (the first is similar to neither at that level); at
    threshold 0.5 the first takes the second into its group, and the third,
    similar to the second only, is left in no group. *)
Lemma grouped_indices_not_monotone :
  ~ (forall (df : DataFrame) (t1 t2 : Q),
        (t1 < t2)%Q ->
        forall x : nat,
          x ∈ grouped_indices (find_similar_descriptions SequenceMatcher.ratio df t2) ->
          x ∈ grouped_indices (find_similar_descriptions SequenceMatcher.ratio df t1)).
Proof.
  intros H.
  specialize (H (frame_of ["SHELL"; "SHELL OIL 5744"; " OIL 5744"])
                (1 # 2)%Q (6 # 10)%Q).
  assert (Hlt : (1 # 2 < 6 # 10)%Q) by (unfold Qlt; simpl; lia).
  specialize (H Hlt 2).
  assert (H2 : find_similar_descriptions SequenceMatcher.ratio
                 (frame_of ["SHELL"; "SHELL OIL 5744"; " OIL 5744"]) (6 # 10)%Q
               = [[1; 2]]) by (vm_compute; reflexivity).
  assert (H1 : find_similar_descriptions SequenceMatcher.ratio
                 (frame_of ["SHELL"; "SHELL OIL 5744"; " OIL 5744"]) (1 # 2)%Q
               = [[0; 1]]) by (vm_compute; reflexivity).
  rewrite H1, H2 in H. unfold grouped_indices in H. simpl in H.
  assert (Hin : 2 ∈ [1; 2]) by (apply elem_of_cons; right; apply elem_of_cons; by left).
  apply H in Hin.
  repeat (apply elem_of_cons in Hin as [Hin | Hin]; [discriminate |]).
  by apply elem_of_nil in Hin.
Qed.

(* ===================================================================== *)
(** ** Loading and saving the rule database *)
(* ===================================================================== *)

Lemma strings_of_inv (l : list json) (ss : list string) :
  strings_of l = Some ss -> l = map JStr ss.
Proof.
  revert ss. induction l as [|v l IH]; intros ss; simpl.
  - by intros [= <-].
  - destruct v; try done. destruct (strings_of l) as [ss' |]; [| done].
    intros [= <-]. simpl. by rewrite (IH ss').
Qed.

Lemma string_list_inv (v : json) (ss : list string) :
  string_list v = Some ss -> v = JArr (map JStr ss).
Proof. destruct v; try done. simpl. by intros ->%strings_of_inv. Qed.

Lemma assoc_unknown (key : string) (o : list (string * json)) :
  key ∉ known_keys ->
  assoc key (List.filter (fun kv => negb (bool_decide (kv.1 ∈ known_keys))) o)
  = assoc key o.
Proof.
  intros Hkey. induction o as [|[k v] o IH]; [done |]. cbn [List.filter fst assoc].
  destruct (String.eqb_spec k key) as [-> | Hne].
  - rewrite (bool_decide_eq_false_2 _ Hkey). cbn [negb assoc].
    by rewrite String.eqb_refl.
  - destruct (negb _); [| done]. cbn [assoc].
    by destruct (String.eqb_spec k key).
Qed.


(** A document whose three lists are lists of strings of one length is
    loaded as it is, whatever else it holds. *)
Lemma load_well_formed (fs : filesystem) (source : string)
    (o : list (string * json)) (db : category_db) :
  source <> "" ->
  fs !! source = Some (Document (JObj o)) ->
  as_category_db o = Some db ->
  length (descriptions db) = length (business_labels db) ->
  length (business_labels db) = length (retailer_labels db) ->
  _load_category_db fs (Some source) = (Loaded db, fs).
Proof.
  intros Hsrc Hfile Hdb Hlen1 Hlen2. unfold _load_category_db.
  apply truthy_true in Hsrc. rewrite Hsrc, Hfile. rewrite Hdb.
  unfold as_category_db in Hdb. unfold len_of, getitem.
  destruct (assoc "descriptions" o) as [d |]; [| done].
  destruct (assoc "business_labels" o) as [b |]; [| done].
  destruct (assoc "retailer_labels" o) as [r |]; [| done].
  destruct (string_list d) as [ds |] eqn:Hd; [| done].
  destruct (string_list b) as [bs |] eqn:Hb; [| done].
  destruct (string_list r) as [rs |] eqn:Hr; [| done].
  apply string_list_inv in Hd as ->. apply string_list_inv in Hb as ->.
  apply string_list_inv in Hr as ->.
  injection Hdb as <-. cbn [descriptions business_labels retailer_labels] in *.
  cbn [len]. rewrite !length_map, Hlen1, Hlen2, !Nat.eqb_refl. by cbn [negb].
Qed.

(** Every field of the dictionary of a database is in the document built
    from it, under the same key. *)
Lemma to_json_fields (o : list (string * json)) (db : category_db) :
  as_category_db o = Some db ->
  exists o' : list (string * json),
    to_json db = JObj o' /\ forall key : string, assoc key o' = assoc key o.
Proof.
  intros Hdb. eexists. split; [reflexivity |]. intros key.
  unfold as_category_db in Hdb.
  destruct (assoc "descriptions" o) as [d |] eqn:Ed; [| done].
  destruct (assoc "business_labels" o) as [b |] eqn:Eb; [| done].
  destruct (assoc "retailer_labels" o) as [r |] eqn:Er; [| done].
  destruct (string_list d) as [ds |] eqn:Hd; [| done].
  destruct (string_list b) as [bs |] eqn:Hb; [| done].
  destruct (string_list r) as [rs |] eqn:Hr; [| done].
  apply string_list_inv in Hd as ->. apply string_list_inv in Hb as ->.
  apply string_list_inv in Hr as ->.
  injection Hdb as <-. cbn [descriptions business_labels retailer_labels other_fields].
  cbn [assoc].
  destruct (String.eqb_spec "descriptions" key) as [<- | H1]; [done |].
  destruct (String.eqb_spec "business_labels" key) as [<- | H2]; [done |].
  destruct (String.eqb_spec "retailer_labels" key) as [<- | H3]; [done |].
  apply assoc_unknown. unfold known_keys.
  rewrite !not_elem_of_cons. split_and!; first [done | apply not_elem_of_nil].
Qed.


(** C1. The class binds no attribute [add_category]: the call made by the
    test [test_save_and_load_category_db] and by the user interface raises
    [AttributeError]; and the one method named for adding,
    [add_business_type], leaves the rule database as it is. *)
Theorem add_category_is_not_defined :
  getattr "add_category" = Raise AttributeError /\
  forall (db : category_db) (business_type : string),
    add_business_type db business_type = db.
Proof. split; [by vm_compute | done]. Qed.

(** C6, as the specification words it, fails: a field the engine does not
    read, loaded from a source, is written back by [save_category_db]. *)
Lemma save_category_db_keeps_unknown_fields :
  ~ (forall (fs : filesystem) (source : string) (db : category_db) (filename : string),
        _load_category_db fs (Some source) = (Loaded db, fs) ->
        exists j : json,
          save_category_db db filename fs !! filename = Some (Document j) /\
          canonical j).
Proof.
  intros H.
  set (o := [("descriptions", JArr [JStr "walmart"]);
             ("business_labels", JArr [JStr "Retail"]);
             ("retailer_labels", JArr [JStr "Walmart"]);
             ("version", JNum 2)]).
  set (fs := {["src/category_db.json" := Document (JObj o)]} : filesystem).
  destruct (H fs "src/category_db.json"
              (Db ["walmart"] ["Retail"] ["Walmart"] [("version", JNum 2)])
              "out/category_db.json")
    as (j & Hj & ds & bs & rs & Hcanon).
  - by apply (load_well_formed fs _ o); [| apply lookup_singleton_eq | ..].
  - unfold save_category_db in Hj. rewrite lookup_insert_eq in Hj.
    injection Hj as <-. discriminate Hcanon.
Qed.

(** C6, as the code has it. [save_category_db] writes the dictionary held
    in memory, whole: a document whose three lists are lists of strings of
    one length is loaded with every field it has, and saving the loaded
    database writes a document with the same value under every key, the
    keys the engine does not read included. *)
Theorem save_category_db_writes_every_field
    (fs : filesystem) (source filename : string)
    (o : list (string * json)) (db : category_db) :
  source <> "" ->
  fs !! source = Some (Document (JObj o)) ->
  as_category_db o = Some db ->
  length (descriptions db) = length (business_labels db) ->
  length (business_labels db) = length (retailer_labels db) ->
  _load_category_db fs (Some source) = (Loaded db, fs) /\
  exists o' : list (string * json),
    save_category_db db filename fs !! filename = Some (Document (JObj o')) /\
    forall key : string, assoc key o' = assoc key o.
Proof.
  intros Hsrc Hfile Hdb Hlen1 Hlen2.
  split; [by apply (load_well_formed fs source o) |].
  destruct (to_json_fields o db Hdb) as (o' & Hjson & Hfields).
  exists o'. split; [| done].
  unfold save_category_db. by rewrite lookup_insert_eq, Hjson.
Qed.

Lemma save_category_db_writes_every_field_witness :
  exists o' : list (string * json),
    save_category_db
      (Db ["walmart"] ["Retail"] ["Walmart"] [("version", JNum 2)])
      "out/category_db.json"
      {["src/category_db.json" :=
          Document (JObj [("descriptions", JArr [JStr "walmart"]);
                          ("business_labels", JArr [JStr "Retail"]);
                          ("retailer_labels", JArr [JStr "Walmart"]);
                          ("version", JNum 2)])]}
    !! "out/category_db.json" = Some (Document (JObj o')) /\
    assoc "version" o' = Some (JNum 2).
Proof.
  destruct (save_category_db_writes_every_field
              {["src/category_db.json" :=
                  Document (JObj [("descriptions", JArr [JStr "walmart"]);
                                  ("business_labels", JArr [JStr "Retail"]);
                                  ("retailer_labels", JArr [JStr "Walmart"]);
                                  ("version", JNum 2)])]}
              "src/category_db.json" "out/category_db.json"
              [("descriptions", JArr [JStr "walmart"]);
               ("business_labels", JArr [JStr "Retail"]);
               ("retailer_labels", JArr [JStr "Walmart"]);
               ("version", JNum 2)]
              (Db ["walmart"] ["Retail"] ["Walmart"] [("version", JNum 2)]))
    as (_ & o' & Hsave & Hfields).
  - discriminate.
  - apply lookup_singleton_eq.
  - reflexivity.
  - reflexivity.
  - reflexivity.
  - exists o'. split; [exact Hsave |]. by rewrite Hfields.
Defined.

(* ===================================================================== *)
(** ** Loading a table of transactions *)
(* ===================================================================== *)

Lemma filter_nil_iff {X : Type} (f : X -> bool) (l : list X) :
  List.filter f l = [] <-> forall x, x ∈ l -> f x = false.
Proof.
  induction l as [|y l IH]; cbn [List.filter].
  - split; [by intros _ x ?%elem_of_nil | done].
  - destruct (f y) eqn:Hy.
    + split; [done |]. intros H. specialize (H y (list_elem_of_here _ _)). congruence.
    + rewrite IH. split.
      * intros H x [-> | Hx]%elem_of_cons; auto.
      * intros H x Hx. apply H. by apply list_elem_of_further.
Qed.

Lemma filter_sublist {X : Type} (f : X -> bool) (l : list X) :
  sublist (List.filter f l) l.
Proof.
  induction l as [|y l IH]; cbn [List.filter]; [constructor |].
  destruct (f y); by constructor.
Qed.

Lemma elem_of_filter_bool {X : Type} (f : X -> bool) (l : list X) (x : X) :
  x ∈ List.filter f l <-> x ∈ l /\ f x = true.
Proof. rewrite !list_elem_of_In. apply filter_In. Qed.

Lemma set_column_new (df : table) (name : string) (v : value) :
  name ∉ columns df ->
  set_column df name v
  = Table (nrows df) (cols df ++ [(name, replicate (nrows df) v)]).
Proof. intros H. unfold set_column. by rewrite (bool_decide_eq_false_2 _ H). Qed.

Lemma load_transactions_cases (df : table) :
  match load_transactions df with
  | ValueError message =>
      exists missing : list string,
        missing <> [] /\
        message = "CSV file missing required columns: " +:+ join ", " missing /\
        sublist missing required_columns /\
        forall c : string, c ∈ missing <-> c ∈ required_columns /\ c ∉ columns df
  | Frame _ => forall c : string, c ∈ required_columns -> c ∈ columns df
  end.
Proof.
  unfold load_transactions.
  destruct (List.filter _ required_columns) as [|m missing] eqn:Hmissing.
  - intros c Hc. pose proof (proj1 (filter_nil_iff _ _) Hmissing c Hc) as H.
    apply negb_false_iff in H. by apply bool_decide_eq_true in H.
  - exists (m :: missing). split; [done |]. split; [done |].
    rewrite <- Hmissing. split; [apply filter_sublist |].
    intros c. rewrite elem_of_filter_bool, negb_true_iff, bool_decide_eq_false. done.
Qed.

(** X1. [load_transactions] raises [ValueError] exactly when a required
    column is missing; its message then lists the missing required columns,
    and only them, in the order of [required_columns], separated by commas.
    It returns a table exactly when all six required columns are there. *)
Theorem load_transactions_rejects_missing_columns (df : table) :
  match load_transactions df with
  | ValueError message =>
      exists missing : list string,
        missing <> [] /\
        message = "CSV file missing required columns: " +:+ join ", " missing /\
        sublist missing required_columns /\
        forall c : string, c ∈ missing <-> c ∈ required_columns /\ c ∉ columns df
  | Frame _ => forall c : string, c ∈ required_columns -> c ∈ columns df
  end.
Proof. apply load_transactions_cases. Qed.

Lemma load_transactions_result (df df' : table) :
  load_transactions df = Frame df' ->
  nrows df' = nrows df /\
  (exists added : list (string * list value),
      cols df' = cols df ++ added /\
      map fst added
      = List.filter (fun c => negb (bool_decide (c ∈ columns df)))
                    ["Business Type"; "Retailer"] /\
      Forall (fun c => c.2 = replicate (nrows df) (Str "")) added) /\
  (forall c : string,
      c ∈ required_columns ++ ["Business Type"; "Retailer"] -> c ∈ columns df') /\
  (rectangular df -> rectangular df').
Proof.
  intros Hload.
  pose proof (load_transactions_cases df) as Hreq.
  rewrite Hload in Hreq. unfold load_transactions in Hload.
  destruct (List.filter _ required_columns); [| done].
  injection Hload as <-.
  assert (Hadded : exists added : list (string * list value),
             (let df1 :=
                if negb (bool_decide ("Business Type" ∈ columns df))
                then set_column df "Business Type" (Str "") else df in
              if negb (bool_decide ("Retailer" ∈ columns df1))
              then set_column df1 "Retailer" (Str "") else df1)
             = Table (nrows df) (cols df ++ added) /\
             map fst added
             = List.filter (fun c => negb (bool_decide (c ∈ columns df)))
                           ["Business Type"; "Retailer"] /\
             Forall (fun c => c.2 = replicate (nrows df) (Str "")) added).
  { cbn [List.filter]. cbv zeta.
    destruct (decide ("Business Type" ∈ columns df)) as [Hb | Hb];
      [rewrite (bool_decide_eq_true_2 _ Hb) | rewrite (bool_decide_eq_false_2 _ Hb)];
      cbn [negb].
    - destruct (decide ("Retailer" ∈ columns df)) as [Hr | Hr];
        [rewrite (bool_decide_eq_true_2 _ Hr) | rewrite (bool_decide_eq_false_2 _ Hr)];
        cbn [negb].
      + exists []. rewrite app_nil_r. by destruct df.
      + rewrite set_column_new by done. eexists. split; [reflexivity |].
        split; [done |]. by repeat constructor.
    - rewrite set_column_new by done.
      assert (Hcols : columns (Table (nrows df)
                                 (cols df ++ [("Business Type",
                                               replicate (nrows df) (Str ""))]))
                      = columns df ++ ["Business Type"]).
      { unfold columns. cbn [cols]. by rewrite map_app. }
      destruct (decide ("Retailer" ∈ columns df)) as [Hr | Hr].
      + rewrite (bool_decide_eq_true_2 ("Retailer" ∈ columns df) Hr).
        rewrite bool_decide_eq_true_2
          by (rewrite Hcols; apply elem_of_app; by left).
        cbn [negb]. eexists. split; [reflexivity |]. split; [done |].
        by repeat constructor.
      + rewrite (bool_decide_eq_false_2 ("Retailer" ∈ columns df) Hr).
        rewrite bool_decide_eq_false_2.
        2:{ rewrite Hcols, elem_of_app, list_elem_of_singleton. by intros [? | ?]. }
        cbn [negb]. rewrite set_column_new.
        2:{ rewrite Hcols, elem_of_app, list_elem_of_singleton. by intros [? | ?]. }
        cbn [nrows cols]. rewrite <- app_assoc. eexists. split; [reflexivity |].
        split; [done |]. by repeat constructor. }
  cbv zeta in Hadded. destruct Hadded as (added & -> & Hnames & Hcells).
  cbn [nrows cols]. split; [done |]. split; [by exists added |]. split.
  - intros c [Hc | Hc]%elem_of_app.
    + unfold columns. cbn [cols]. rewrite map_app. apply elem_of_app. left.
      by apply Hreq.
    + unfold columns. cbn [cols]. rewrite map_app, Hnames, elem_of_app.
      destruct (decide (c ∈ map fst (cols df))) as [Hin | Hin]; [by left | right].
      apply elem_of_filter_bool. split; [done |].
      apply negb_true_iff. by apply bool_decide_eq_false.
  - unfold rectangular. cbn [nrows cols]. intros Hrect.
    apply Forall_app. split; [done |].
    eapply Forall_impl; [exact Hcells |]. intros c ->. apply length_replicate.
Qed.

(** X2. When [load_transactions] returns a table, it is the table read with
    the columns Business Type and Retailer added after its own, each only if
    it was not there, with the empty string in every row: the columns read
    keep their order, names and cells, the number of rows is the same, all
    eight columns are present, and a table with one cell per row and column
    stays so. *)
Theorem load_transactions_adds_label_columns (df df' : table) :
  load_transactions df = Frame df' ->
  nrows df' = nrows df /\
  (exists added : list (string * list value),
      cols df' = cols df ++ added /\
      map fst added
      = List.filter (fun c => negb (bool_decide (c ∈ columns df)))
                    ["Business Type"; "Retailer"] /\
      Forall (fun c => c.2 = replicate (nrows df) (Str "")) added) /\
  (forall c : string,
      c ∈ required_columns ++ ["Business Type"; "Retailer"] -> c ∈ columns df') /\
  (rectangular df -> rectangular df').
Proof. apply load_transactions_result. Qed.

Lemma load_transactions_adds_label_columns_witness :
  nrows (Table 2 (cols sample_table ++
                  [("Business Type", [Str ""; Str ""]); ("Retailer", [Str ""; Str ""])]))
  = nrows sample_table.
Proof.
  apply (load_transactions_adds_label_columns sample_table
           (Table 2 (cols sample_table ++
                     [("Business Type", [Str ""; Str ""]);
                      ("Retailer", [Str ""; Str ""])]))).
  reflexivity.
Defined.

Lemma load_transactions_all_present (df : table) :
  (forall c : string,
      c ∈ required_columns ++ ["Business Type"; "Retailer"] -> c ∈ columns df) ->
  load_transactions df = Frame df.
Proof.
  intros Hall. unfold load_transactions.
  assert (Hnone : List.filter (fun col => negb (bool_decide (col ∈ columns df)))
                    required_columns = []).
  { apply filter_nil_iff. intros c Hc. apply negb_false_iff, bool_decide_eq_true.
    apply Hall, elem_of_app. by left. }
  rewrite Hnone.
  rewrite (bool_decide_eq_true_2 ("Business Type" ∈ columns df))
    by (apply Hall, elem_of_app; right; apply list_elem_of_here).
  cbn [negb].
  rewrite (bool_decide_eq_true_2 ("Retailer" ∈ columns df)); [done |].
  apply Hall, elem_of_app; right. apply list_elem_of_further, list_elem_of_here.
Qed.

(** X3. A table read with the columns Business Type and Retailer already
    in it, beside the six required ones, is returned by [load_transactions]
    as it was read: no cell of a label column is reset, and a cell read as
    NaN (a field left empty in the file) stays NaN; it is not made the
    empty string. *)
Theorem load_transactions_keeps_label_columns (df : table) :
  (forall c : string, c ∈ required_columns -> c ∈ columns df) ->
  "Business Type" ∈ columns df ->
  "Retailer" ∈ columns df ->
  load_transactions df = Frame df.
Proof.
  intros Hrequired Hbusiness Hretailer. apply load_transactions_all_present.
  intros c [Hc | Hc]%elem_of_app; [by apply Hrequired |].
  apply elem_of_cons in Hc as [-> | Hc]; [done |].
  by apply list_elem_of_singleton in Hc as ->.
Qed.

Lemma load_transactions_keeps_label_columns_witness :
  load_transactions
    (Table 2 (cols sample_table ++
              [("Business Type", [Str "Personal"; NaN]); ("Retailer", [NaN; NaN])]))
  = Frame (Table 2 (cols sample_table ++
                    [("Business Type", [Str "Personal"; NaN]); ("Retailer", [NaN; NaN])])).
Proof.
  apply (load_transactions_keeps_label_columns
           (Table 2 (cols sample_table ++
                     [("Business Type", [Str "Personal"; NaN]); ("Retailer", [NaN; NaN])]))).
  - intros c Hc. unfold required_columns in Hc.
    repeat (apply elem_of_cons in Hc as [-> | Hc];
            [apply (bool_decide_unpack _); by vm_compute |]).
    by apply elem_of_nil in Hc.
  - apply (bool_decide_unpack _). by vm_compute.
  - apply (bool_decide_unpack _). by vm_compute.
Defined.

(* ===================================================================== *)
(** ** Loading the rule database: fallbacks, failures, what is written *)
(* ===================================================================== *)


Lemma head_of_shorter (path : string) :
  head_of path <> path -> String.length (head_of path) < String.length path.
Proof.
  induction path as [| c path' IH]; [done |]. cbn [head_of String.length].
  destruct (has_directory path').
  - intros Hne. apply (proj1 (Nat.succ_lt_mono _ _)), IH. congruence.
  - destruct (Ascii.eqb c "/"); cbn [String.length]; [| lia].
    destruct path'; [done | cbn [String.length]; lia].
Qed.

Lemma rstrip_slashes_shorter (s : string) :
  rstrip_slashes s <> s -> String.length (rstrip_slashes s) < String.length s.
Proof.
  induction s as [| c s' IH]; [done |]. cbn [rstrip_slashes String.length].
  destruct (rstrip_slashes s') as [| c' t] eqn:Hstrip.
  - destruct (Ascii.eqb c "/"); cbn [String.length]; [lia |].
    destruct s'; [done | cbn [String.length]; lia].
  - intros Hne. cbn [String.length] in *.
    apply (proj1 (Nat.succ_lt_mono _ _)), IH. congruence.
Qed.

Lemma dirname_shorter (path : string) :
  dirname path <> path -> String.length (dirname path) < String.length path.
Proof.
  unfold dirname.
  destruct (rstrip_slashes (head_of path)) as [| c t] eqn:Hstrip;
    [apply head_of_shorter |].
  rewrite <- Hstrip. intros Hne.
  destruct (decide (head_of path = path)) as [Hhead | Hhead].
  - rewrite Hhead in *. by apply rstrip_slashes_shorter.
  - apply head_of_shorter in Hhead.
    destruct (decide (rstrip_slashes (head_of path) = head_of path)) as [-> | Hs];
      [done |].
    apply rstrip_slashes_shorter in Hs. lia.
Qed.

(** The fuel [ancestors] gives [parents] is enough: more changes nothing. *)
Lemma parents_fuel (fuel : nat) (name : string) :
  String.length name <= fuel -> parents fuel name = ancestors name.
Proof.
  unfold ancestors.
  assert (H : forall fuel1 fuel2 name',
             String.length name' <= fuel1 -> String.length name' <= fuel2 ->
             parents fuel1 name' = parents fuel2 name').
  { clear. induction fuel1 as [| fuel1 IH]; intros fuel2 name' H1 H2.
    - destruct name'; [by destruct fuel2 | cbn [String.length] in H1; lia].
    - destruct fuel2 as [| fuel2];
        [destruct name'; [done | cbn [String.length] in H2; lia] |].
      cbn [parents].
      destruct (negb (Str.truthy (dirname name'))); [done |]. cbn [orb].
      destruct (String.eqb_spec (dirname name') name') as [Heq | Hne]; [done |].
      apply dirname_shorter in Hne. f_equal. apply IH; lia. }
  intros Hfuel. by apply H.
Qed.

Lemma dirname_has_directory (path : string) :
  has_directory path = true -> dirname path <> "".
Proof.
  intros Hdir. assert (Hhead : head_of path <> "").
  { induction path as [| c path' IH]; [done |]. cbn [has_directory head_of] in *.
    destruct (has_directory path'); [done |].
    rewrite orb_false_r in Hdir. by rewrite Hdir. }
  unfold dirname. destruct (rstrip_slashes (head_of path)); done.
Qed.

Lemma normal_form_names_file (path : string) :
  normal_form path = true -> names_directory path = false.
Proof.
  unfold normal_form, names_directory. intros Hall. apply negb_false_iff.
  assert (Hlast : forall l : list string,
             l <> [] -> forallb plain l = true -> plain (List.last l "") = true).
  { induction l as [| x l IH]; [done |]. intros _ [Hx Hl]%andb_true_iff.
    destruct l as [| y l]; [done |]. by apply IH. }
  destruct (components path) as [| first rest] eqn:Hcs.
  { by destruct path as [| c path']; [| cbn in Hcs; repeat case_match]. }
  destruct first as [| c first].
  - destruct rest as [| second rest]; [done |]. by apply (Hlast (second :: rest)).
  - by apply Hlast.
Qed.

Lemma makedirs_succeeds (fs : filesystem) (name : string) :
  name <> "" ->
  (forall above : string, above ∈ name :: ancestors name -> fs !! above = None) ->
  makedirs fs name = None.
Proof.
  intros Hname%truthy_true Habove. unfold makedirs. rewrite Hname. cbn [negb].
  assert (Hnone : existsb (is_file fs) (ancestors name) = false).
  { apply not_true_iff_false. intros (above & Hin%list_elem_of_In & Hfile)%existsb_exists.
    unfold is_file in Hfile. rewrite Habove in Hfile; [done |].
    by apply list_elem_of_further. }
  rewrite Hnone. unfold is_file. rewrite Habove; [done |]. apply list_elem_of_here.
Qed.

Lemma load_default_db (fs fs' : filesystem) (category_file : option string)
    (db : category_db) :
  load_default fs category_file = (Loaded db, fs') -> db = default_db.
Proof.
  unfold load_default. destruct category_file as [path |]; [| by intros [= <- _]].
  destruct (Str.truthy path); [| by intros [= <- _]].
  destruct (makedirs fs (dirname path)); [done |].
  destruct (names_directory path); [done | by intros [= <- _]].
Qed.

Lemma string_list_length (v : json) (ss : list string) (n : nat) :
  string_list v = Some ss -> len v = Ok n -> length ss = n.
Proof.
  intros ->%string_list_inv. cbn [len]. rewrite length_map. by intros [= <-].
Qed.

(** X4. Whatever the file system holds and whatever file is named, a rule
    database returned by [_load_category_db] has its three lists of one
    length: [categorize_transaction] never meets its mismatch branch on a
    database that was just loaded. *)
Theorem load_category_db_equal_lengths
    (fs fs' : filesystem) (category_file : option string) (db : category_db) :
  _load_category_db fs category_file = (Loaded db, fs') ->
  length (descriptions db) = length (business_labels db) /\
  length (business_labels db) = length (retailer_labels db).
Proof.
  assert (Hdefault : forall fs0 cf,
             load_default fs0 cf = (Loaded db, fs') ->
             length (descriptions db) = length (business_labels db) /\
             length (business_labels db) = length (retailer_labels db)).
  { by intros fs0 cf ->%load_default_db. }
  unfold _load_category_db.
  destruct category_file as [path |]; [| apply Hdefault].
  destruct (Str.truthy path); [| apply Hdefault].
  destruct (fs !! path) as [[j | |] |]; [| apply Hdefault | done | apply Hdefault].
  unfold len_of, getitem. destruct j as [| | | | | o]; try done.
  destruct (assoc "descriptions" o) as [d |] eqn:Ed; [| apply Hdefault].
  destruct (len d) as [n1 | e1] eqn:Hn1; [| by destruct e1; try apply Hdefault].
  destruct (assoc "business_labels" o) as [b |] eqn:Eb; [| apply Hdefault].
  destruct (len b) as [n2 | e2] eqn:Hn2; [| by destruct e2; try apply Hdefault].
  destruct (Nat.eqb_spec n1 n2) as [<- | Hne]; cbn [negb]; [| apply Hdefault].
  destruct (assoc "retailer_labels" o) as [r |] eqn:Er; [| apply Hdefault].
  destruct (len r) as [n3 | e3] eqn:Hn3; [| by destruct e3; try apply Hdefault].
  destruct (Nat.eqb_spec n1 n3) as [<- | Hne]; cbn [negb]; [| apply Hdefault].
  unfold as_category_db. rewrite Ed, Eb, Er.
  destruct (string_list d) as [ds |] eqn:Hd; [| done].
  destruct (string_list b) as [bs |] eqn:Hb; [| done].
  destruct (string_list r) as [rs |] eqn:Hr; [| done].
  intros [= <- _]. cbn [descriptions business_labels retailer_labels].
  rewrite (string_list_length d ds n1), (string_list_length b bs n1),
    (string_list_length r rs n1); done.
Qed.

Lemma load_category_db_equal_lengths_witness :
  length (descriptions default_db) = length (business_labels default_db) /\
  length (business_labels default_db) = length (retailer_labels default_db).
Proof.
  apply (load_category_db_equal_lengths
           {["db/rules.json" := Garbage]} {["db/rules.json" := Garbage]}
           (Some "db/rules.json") default_db).
  reflexivity.
Defined.

(** X5. A file whose text is not JSON, or that holds a JSON object in which
    the three known fields, arrays where present, are not all present with
    one length, makes [_load_category_db] return the default database; the
    file is left as it is, and so is the rest of the file system. (A file
    that is no text at all is not in this case: reading it raises.) *)
Theorem load_category_db_falls_back
    (fs : filesystem) (path : string) (c : content) :
  path <> "" ->
  fs !! path = Some c ->
  match c with
  | Garbage => True
  | Undecodable => False
  | Document (JObj o) =>
      (forall (k : string) (v : json),
          k ∈ known_keys -> assoc k o = Some v -> exists l, v = JArr l) /\
      ~ (exists d b r : list json,
            assoc "descriptions" o = Some (JArr d) /\
            assoc "business_labels" o = Some (JArr b) /\
            assoc "retailer_labels" o = Some (JArr r) /\
            length d = length b /\ length b = length r)
  | Document _ => False
  end ->
  _load_category_db fs (Some path) = (Loaded default_db, fs).
Proof.
  intros Hpath%truthy_true Hfile Hc. unfold _load_category_db.
  rewrite Hpath, Hfile. destruct c as [j | |]; [| done | done].
  destruct j as [| | | | | o]; try done. destruct Hc as [Harr Hnot].
  assert (Hk : forall k, k ∈ known_keys ->
                 len_of (JObj o) k = Raise KeyError \/
                 exists l, assoc k o = Some (JArr l) /\ len_of (JObj o) k = Ok (length l)).
  { intros k Hk. unfold len_of, getitem.
    destruct (assoc k o) as [v |] eqn:Ev; [| by left].
    destruct (Harr k v Hk Ev) as [l ->]. right. by exists l. }
  destruct (Hk "descriptions") as [-> | (d & Ed & ->)];
    [unfold known_keys; set_solver | done |].
  destruct (Hk "business_labels") as [-> | (b & Eb & ->)];
    [unfold known_keys; set_solver | done |].
  destruct (Nat.eqb_spec (length d) (length b)) as [Hdb | Hdb]; cbn [negb]; [| done].
  destruct (Hk "retailer_labels") as [-> | (r & Er & ->)];
    [unfold known_keys; set_solver | done |].
  destruct (Nat.eqb_spec (length b) (length r)) as [Hbr | Hbr]; cbn [negb]; [| done].
  destruct Hnot. by exists d, b, r.
Qed.

Lemma load_category_db_falls_back_witness :
  _load_category_db
    {["db/rules.json" :=
        Document (JObj [("descriptions", JArr [JStr "walmart"]);
                        ("retailer_labels", JArr [JStr "Walmart"])])]}
    (Some "db/rules.json")
  = (Loaded default_db,
     {["db/rules.json" :=
         Document (JObj [("descriptions", JArr [JStr "walmart"]);
                         ("retailer_labels", JArr [JStr "Walmart"])])]}).
Proof.
  apply (load_category_db_falls_back _ "db/rules.json"
           (Document (JObj [("descriptions", JArr [JStr "walmart"]);
                            ("retailer_labels", JArr [JStr "Walmart"])]))).
  - discriminate.
  - apply lookup_singleton_eq.
  - split.
    + intros k v Hk. cbn [assoc].
      repeat (destruct (String.eqb _ k); [intros [= <-]; eauto |]). done.
    + intros (d & b & r & _ & Hb & _). discriminate Hb.
Defined.

Lemma default_db_as_category_db :
  as_category_db
    [("descriptions", JArr (map JStr (descriptions default_db)));
     ("business_labels", JArr (map JStr (business_labels default_db)));
     ("retailer_labels", JArr (map JStr (retailer_labels default_db)))]
  = Some default_db.
Proof. reflexivity. Qed.

(** X6. When the named file does not exist, its path is in normal form
    with a directory part, no regular file stands at that directory or
    above it, and the path is not itself the directory of a file,
    [_load_category_db] returns the default database and writes it to that
    file, touching no other file; loading the same path again then returns
    the default database from the file, and writes nothing. *)
Theorem load_category_db_creates_default_file (fs : filesystem) (path : string) :
  fs !! path = None ->
  is_directory fs path = false ->
  has_directory path = true ->
  normal_form path = true ->
  (forall above : string,
      above ∈ dirname path :: ancestors (dirname path) -> fs !! above = None) ->
  (_load_category_db fs (Some path)).1 = Loaded default_db /\
  (_load_category_db fs (Some path)).2 !! path = Some (Document (to_json default_db)) /\
  (forall other : string,
      other <> path -> (_load_category_db fs (Some path)).2 !! other = fs !! other) /\
  _load_category_db (_load_category_db fs (Some path)).2 (Some path)
  = (Loaded default_db, (_load_category_db fs (Some path)).2).
Proof.
  intros Hnone _ Hdir Hslash%normal_form_names_file Habove.
  assert (Hpath : Str.truthy path = true) by (by destruct path).
  assert (Hfirst : _load_category_db fs (Some path)
                   = (Loaded default_db, <[path := Document (to_json default_db)]> fs)).
  { unfold _load_category_db, load_default.
    rewrite Hpath, Hnone, Hslash, makedirs_succeeds;
      [done | by apply dirname_has_directory | done]. }
  rewrite Hfirst. cbn [fst snd]. split_and!.
  - done.
  - apply lookup_insert_eq.
  - intros other Hother. by apply lookup_insert_ne.
  - apply (load_well_formed _ path
             [("descriptions", JArr (map JStr (descriptions default_db)));
              ("business_labels", JArr (map JStr (business_labels default_db)));
              ("retailer_labels", JArr (map JStr (retailer_labels default_db)))]).
    + by apply truthy_true.
    + apply lookup_insert_eq.
    + apply default_db_as_category_db.
    + reflexivity.
    + reflexivity.
Qed.

Lemma load_category_db_creates_default_file_witness :
  (_load_category_db {["src/data/rules.json" := Garbage]}
     (Some "src/data/category_db.json")).1 = Loaded default_db.
Proof.
  apply (load_category_db_creates_default_file
           {["src/data/rules.json" := Garbage]} "src/data/category_db.json").
  - by vm_compute.
  - by vm_compute.
  - reflexivity.
  - reflexivity.
  - intros above Habove. vm_compute in Habove.
    repeat (apply elem_of_cons in Habove as [-> | Habove]; [by vm_compute |]).
    by apply elem_of_nil in Habove.
Defined.

Lemma load_default_other (fs : filesystem) (category_file : option string)
    (other : string) :
  category_file <> Some other ->
  (load_default fs category_file).2 !! other = fs !! other.
Proof.
  intros Hother. unfold load_default. destruct category_file as [path |]; [| done].
  destruct (Str.truthy path), (makedirs fs (dirname path)), (names_directory path);
    try done.
  cbn [snd]. apply lookup_insert_ne. congruence.
Qed.

Lemma load_category_db_frame
    (fs : filesystem) (category_file : option string) :
  (match category_file with
   | Some path => path = "" \/ is_Some (fs !! path)
   | None => True
   end ->
   (_load_category_db fs category_file).2 = fs) /\
  forall other : string,
    category_file <> Some other ->
    (_load_category_db fs category_file).2 !! other = fs !! other.
Proof.
  assert (Hnone : (load_default fs None).2 = fs) by done.
  split.
  - unfold _load_category_db. destruct category_file as [path |]; [| done].
    intros [-> | [c Hc]]; [done |].
    destruct (Str.truthy path) eqn:Hpath; [| by destruct path].
    rewrite Hc. destruct c as [j | |]; [| done | done].
    repeat (case_match; try done).
  - intros other Hother. unfold _load_category_db.
    destruct category_file as [path |]; [| by apply load_default_other].
    destruct (Str.truthy path); [| by apply load_default_other].
    destruct (fs !! path) as [[j | |] |]; [| done | done | by apply load_default_other].
    repeat (case_match; try done).
Qed.

(** X7. [_load_category_db] writes at most the file it is given, and only
    when that file does not exist: with no file name, an empty one, or the
    name of an existing file (readable or not, accepted or not), the file
    system is left as it is; and a file other than the one named is never
    changed. *)
Theorem load_category_db_writes_only_missing_file
    (fs : filesystem) (category_file : option string) :
  (match category_file with
   | Some path => path = "" \/ is_Some (fs !! path)
   | None => True
   end ->
   (_load_category_db fs category_file).2 = fs) /\
  forall other : string,
    category_file <> Some other ->
    (_load_category_db fs category_file).2 !! other = fs !! other.
Proof. apply load_category_db_frame. Qed.

Lemma load_category_db_writes_only_missing_file_witness :
  (_load_category_db {["db/rules.json" := Garbage]} (Some "db/rules.json")).2
  = {["db/rules.json" := Garbage]}.
Proof.
  apply (load_category_db_writes_only_missing_file
           {["db/rules.json" := Garbage]} (Some "db/rules.json")).
  right. exists Garbage. apply lookup_singleton_eq.
Defined.

(** X8. A file whose JSON document is not an object, or is an object whose
    "descriptions" field is a number, a boolean or null, makes
    [_load_category_db] raise [TypeError]: it is not among the exceptions
    the method catches, so there is no fallback to the defaults. *)
Theorem load_category_db_type_error (fs : filesystem) (path : string) (j : json) :
  path <> "" ->
  fs !! path = Some (Document j) ->
  match j with
  | JObj o =>
      exists v : json, assoc "descriptions" o = Some v /\ len v = Raise TypeError
  | _ => True
  end ->
  _load_category_db fs (Some path) = (Raised TypeError, fs).
Proof.
  intros Hpath%truthy_true Hfile Hj. unfold _load_category_db.
  rewrite Hpath, Hfile. destruct j as [| | | | | o]; try done.
  destruct Hj as (v & Ev & Hv). unfold len_of, getitem. by rewrite Ev, Hv.
Qed.

Lemma load_category_db_type_error_witness :
  _load_category_db {["db/rules.json" := Document (JArr [])]} (Some "db/rules.json")
  = (Raised TypeError, {["db/rules.json" := Document (JArr [])]}).
Proof.
  apply (load_category_db_type_error _ "db/rules.json" (JArr [])).
  - discriminate.
  - apply lookup_singleton_eq.
  - exact I.
Defined.





(* ===================================================================== *)
(** ** The matcher: what does not change its answer *)
(* ===================================================================== *)

Section Normalize.

Lemma lower_char_idempotent (c : ascii) :
  Str.lower_char (Str.lower_char c) = Str.lower_char c.
Proof. destruct c as [[] [] [] [] [] [] [] []]; reflexivity. Qed.

Lemma lower_char_space_inv (c : ascii) :
  Str.lower_char c = " "%char -> c = " "%char.
Proof.
  destruct c as [[] [] [] [] [] [] [] []]; vm_compute; intros H;
    first [reflexivity | discriminate H].
Qed.

Lemma lower_idempotent (s : string) : Str.lower (Str.lower s) = Str.lower s.
Proof.
  induction s as [|c s IH]; [done |]. simpl. by rewrite lower_char_idempotent, IH.
Qed.

Lemma lower_app (a b : string) : Str.lower (a +:+ b) = Str.lower a +:+ Str.lower b.
Proof. induction a as [|c a IH]; [done |]. simpl. by rewrite IH. Qed.

Lemma remove_spaces_app (a b : string) :
  Str.remove_spaces (a +:+ b) = Str.remove_spaces a +:+ Str.remove_spaces b.
Proof.
  induction a as [|c a IH]; [done |]. simpl. rewrite IH. by destruct (Ascii.eqb c " ").
Qed.

Lemma normalize_app (a b : string) : normalize (a +:+ b) = normalize a +:+ normalize b.
Proof. unfold normalize. by rewrite lower_app, remove_spaces_app. Qed.

Lemma normalize_lower (s : string) : normalize (Str.lower s) = normalize s.
Proof. unfold normalize. by rewrite lower_idempotent. Qed.

Lemma remove_spaces_lower_empty_inv (s : string) :
  Str.remove_spaces (Str.lower s) = "" -> Str.remove_spaces s = "".
Proof.
  induction s as [|c s IH]; [done |]. simpl.
  destruct (Ascii.eqb (Str.lower_char c) " ") eqn:E; [| done].
  apply Ascii.eqb_eq, lower_char_space_inv in E as ->. simpl. exact IH.
Qed.

Lemma string_app_assoc (a b c : string) : (a +:+ b) +:+ c = a +:+ (b +:+ c).
Proof.
  induction a as [|x a IH]; [done |].
  change (String x ((a +:+ b) +:+ c) = String x (a +:+ (b +:+ c))). by rewrite IH.
Qed.

Lemma substring_trans (a b c : string) :
  Str.substring a b -> Str.substring b c -> Str.substring a c.
Proof.
  intros (p1 & q1 & ->) (p2 & q2 & ->). exists (p2 +:+ p1), (q1 +:+ q2).
  by rewrite !string_app_assoc.
Qed.

End Normalize.

(** The matcher reads a description through [normalize] only. *)
Lemma match_description_normalize (db : category_db) (d1 d2 : string) :
  normalize d1 = normalize d2 ->
  _match_description db d1 = _match_description db d2.
Proof.
  intros H. rewrite !match_description_unfold.
  generalize 0. induction (descriptions db) as [|k l IH]; intros a; [done |].
  cbn [matching_from]. rewrite IH. unfold phrase_found.
  fold (normalize d1). fold (normalize d2). by rewrite H.
Qed.

(** The pair returned by [categorize_transaction] is that of [labels_of]
    in any world, and is decided by the matches. *)
Lemma categorize_transaction_value (db : category_db) (d1 d2 : string) (w1 w2 : world) :
  _match_description db d1 = _match_description db d2 ->
  (categorize_transaction db d1 w1).1 = (categorize_transaction db d2 w2).1.
Proof.
  intros Hm. unfold categorize_transaction, bind, enter_matcher.
  destruct (_ || _).
  - reflexivity.
  - rewrite Hm.
    match goal with
    | |- context [for_each ?body ?ms ?s] =>
        destruct (prints_only_for_each body ms s) as (a & out & Hrun)
    end.
    { intros [bt rt] idx.
      destruct (business_labels db !! idx), (retailer_labels db !! idx);
        first [ apply prints_only_ret
              | apply prints_only_bind;
                [apply prints_only_print | intros _; apply prints_only_ret] ]. }
    by rewrite !Hrun.
Qed.

(** X11. In a description made of code points below 256, on which
    [str.lower] works character by character, letter case and spaces do not
    count: lower-casing it, or deleting a space anywhere in it, changes
    neither the list [_match_description] returns nor the pair
    [categorize_transaction] returns, for any rule database. *)
Theorem matcher_ignores_case_and_spaces
    (db : category_db) (d a b : string) (w : world) :
  _match_description db (Str.lower d) = _match_description db d /\
  _match_description db (a +:+ " " +:+ b) = _match_description db (a +:+ b) /\
  (categorize_transaction db (Str.lower d) w).1 = (categorize_transaction db d w).1 /\
  (categorize_transaction db (a +:+ " " +:+ b) w).1
  = (categorize_transaction db (a +:+ b) w).1.
Proof.
  assert (H1 : normalize (Str.lower d) = normalize d) by apply normalize_lower.
  assert (H2 : normalize (a +:+ " " +:+ b) = normalize (a +:+ b))
    by (by rewrite !normalize_app).
  split_and!; try by apply match_description_normalize.
  - by apply categorize_transaction_value, match_description_normalize.
  - by apply categorize_transaction_value, match_description_normalize.
Qed.

(** X12. For descriptions made of code points below 256, on which
    [str.lower] works character by character, text added before or after a
    description loses no match: every rule matched by a description is
    matched by any description that contains it. *)
Theorem match_description_monotone
    (db : category_db) (description longer : string) (i : nat) :
  Str.substring description longer ->
  i ∈ _match_description db description ->
  i ∈ _match_description db longer.
Proof.
  intros (pre & post & ->). rewrite !elem_of_match_description.
  intros (k & Hk & Hsub). exists k. split; [done |].
  eapply substring_trans; [exact Hsub |].
  exists (normalize pre), (normalize post). by rewrite !normalize_app.
Qed.

Lemma match_description_monotone_witness :
  2 ∈ _match_description default_db "POS WALMART SAN RAMON CA #12".
Proof.
  apply (match_description_monotone default_db "SAN RAMON" _ 2).
  - by exists "POS WALMART ", " CA #12".
  - vm_compute. apply list_elem_of_here.
Defined.

(** X14. The empty description is matched by the rules whose key phrase is
    empty or made of spaces, and by no other. *)
Theorem match_description_empty (db : category_db) (i : nat) :
  i ∈ _match_description db ""
  <-> exists key_phrase : string,
        descriptions db !! i = Some key_phrase /\ Str.remove_spaces key_phrase = "".
Proof.
  rewrite elem_of_match_description. unfold matches_rule. split.
  - intros (k & Hk & pre & post & Hsub). exists k. split; [done |].
    apply remove_spaces_lower_empty_inv. fold (normalize k).
    change (normalize "") with "" in Hsub.
    destruct pre; [| done]. simpl in Hsub. by destruct (normalize k).
  - intros (k & Hk & Hempty). exists k. split; [done |].
    unfold normalize at 1. rewrite (remove_spaces_lower_empty _ Hempty).
    by exists "", "".
Qed.

(* ===================================================================== *)
(** ** Precedence of earlier rules *)
(* ===================================================================== *)

Lemma matching_from_app (d : string) (l1 l2 : list string) (a : nat) :
  matching_from d a (l1 ++ l2)
  = matching_from d a l1 ++ matching_from d (a + length l1) l2.
Proof.
  revert a. induction l1 as [|k l1 IH]; intros a; cbn [app matching_from length].
  - by rewrite Nat.add_0_r.
  - rewrite IH, <- app_assoc. by rewrite Nat.add_succ_r.
Qed.

Lemma first_label_app (labels : list string) (ms1 ms2 : list nat) :
  first_label labels (ms1 ++ ms2)
  = if Str.truthy (first_label labels ms1) then first_label labels ms1
    else first_label labels ms2.
Proof.
  induction ms1 as [|i ms1 IH]; [done |]. cbn [app first_label].
  destruct (labels !! i) as [x |]; [| done].
  destruct (Str.truthy x) eqn:Hx; [by rewrite Hx | done].
Qed.

Lemma first_label_ext (labels labels' : list string) (ms : list nat) :
  Forall (fun i => labels !! i = labels' !! i) ms ->
  first_label labels ms = first_label labels' ms.
Proof.
  induction 1 as [|i ms Hi _ IH]; [done |]. cbn [first_label]. by rewrite Hi, IH.
Qed.

Lemma first_label_in (labels : list string) (ms : list nat) :
  first_label labels ms = "" \/ first_label labels ms ∈ labels.
Proof.
  induction ms as [|i ms IH]; [by left |]. cbn [first_label].
  destruct (labels !! i) as [x |] eqn:Hx; [| done].
  destruct (Str.truthy x); [| done]. right. by eapply list_elem_of_lookup_2.
Qed.

Lemma appended_rule_value
    (db : category_db) (key_phrase business retailer description : string)
    (w : world) :
  length (descriptions db) = length (business_labels db) ->
  length (descriptions db) = length (retailer_labels db) ->
  let db' :=
    Db (descriptions db ++ [key_phrase]) (business_labels db ++ [business])
       (retailer_labels db ++ [retailer]) (other_fields db) in
  let found := Str.contains (normalize key_phrase) (normalize description) in
  _match_description db' description
  = _match_description db description ++
    (if found then [length (descriptions db)] else []) /\
  (categorize_transaction db' description w).1
  = (let '(business_type, retailer_type) := (categorize_transaction db description w).1 in
     (if Str.truthy business_type then business_type
      else if found then business else "",
      if Str.truthy retailer_type then retailer_type
      else if found then retailer else "")).
Proof.
  intros Hb Hr db' found.
  assert (Hm : _match_description db' description
               = _match_description db description ++
                 (if found then [length (descriptions db)] else [])).
  { rewrite !match_description_unfold. unfold db'. cbn [descriptions].
    rewrite matching_from_app. cbn [matching_from]. by rewrite app_nil_r. }
  split; [exact Hm |].
  rewrite (categorize_value db) by done.
  rewrite (categorize_value db')
    by (unfold db'; cbn [descriptions business_labels retailer_labels];
        rewrite !length_app; simpl; lia).
  cbn [fst snd]. rewrite Hm, !first_label_app.
  assert (Hfield : forall labels l,
             length (descriptions db) = length labels ->
             first_label (labels ++ [l]) (_match_description db description)
             = first_label labels (_match_description db description) /\
             first_label (labels ++ [l]) (if found then [length (descriptions db)] else [])
             = if found then l else "").
  { intros labels l Hlen. split.
    - symmetry. apply first_label_ext, Forall_forall.
      intros i Hi%match_description_bound. rewrite lookup_app_l; [done | lia].
    - destruct found; [| done]. cbn [first_label].
      rewrite Hlen, list_lookup_middle by done. by destruct l. }
  unfold db'. cbn [business_labels retailer_labels].
  destruct (Hfield (business_labels db) business Hb) as [-> ->].
  destruct (Hfield (retailer_labels db) retailer Hr) as [-> ->].
  done.
Qed.

(** X13. Earlier rules take precedence over a rule put at the end. In a
    database whose three lists have one length and to which one rule is
    appended, [_match_description] returns what it returned, followed by
    the index of the new rule if its key phrase is found; and each field
    [categorize_transaction] had set keeps its value, the new rule deciding
    only a field that was empty. *)
Theorem appended_rule_never_overrides
    (db : category_db) (key_phrase business retailer description : string)
    (w : world) :
  length (descriptions db) = length (business_labels db) ->
  length (descriptions db) = length (retailer_labels db) ->
  let db' :=
    Db (descriptions db ++ [key_phrase]) (business_labels db ++ [business])
       (retailer_labels db ++ [retailer]) (other_fields db) in
  let found := Str.contains (normalize key_phrase) (normalize description) in
  _match_description db' description
  = _match_description db description ++
    (if found then [length (descriptions db)] else []) /\
  (categorize_transaction db' description w).1
  = (let '(business_type, retailer_type) := (categorize_transaction db description w).1 in
     (if Str.truthy business_type then business_type
      else if found then business else "",
      if Str.truthy retailer_type then retailer_type
      else if found then retailer else "")).
Proof. apply appended_rule_value. Qed.

Lemma appended_rule_never_overrides_witness :
  (categorize_transaction
     (Db (descriptions default_db ++ ["amazon"]) (business_labels default_db ++ ["Online"])
         (retailer_labels default_db ++ ["AMZN"]) (other_fields default_db))
     "Amazon Prime Subscription" empty_world).1
  = ("Online", "Amazon").
Proof.
  pose proof (appended_rule_never_overrides default_db "amazon" "Online" "AMZN"
                "Amazon Prime Subscription" empty_world eq_refl eq_refl) as [_ H].
  rewrite H. reflexivity.
Defined.

(** X15. [categorize_transaction] invents no label: each member of the pair
    it returns is the empty string or one of the labels of the corresponding
    list of the rule database. The call changes no frame, and prints nothing
    when the three lists have one length. *)
Theorem categorize_transaction_labels_from_database
    (db : category_db) (description : string) (w : world) :
  ((categorize_transaction db description w).1.1 = "" \/
   (categorize_transaction db description w).1.1 ∈ business_labels db) /\
  ((categorize_transaction db description w).1.2 = "" \/
   (categorize_transaction db description w).1.2 ∈ retailer_labels db) /\
  frames (categorize_transaction db description w).2 = frames w /\
  (length (descriptions db) = length (business_labels db) ->
   length (descriptions db) = length (retailer_labels db) ->
   stdout (categorize_transaction db description w).2 = stdout w).
Proof.
  rewrite (categorize_transaction_run db description w). cbn [fst snd frames stdout].
  assert (Hlabels : ((labels_of db description).1 = "" \/
                     (labels_of db description).1 ∈ business_labels db) /\
                    ((labels_of db description).2 = "" \/
                     (labels_of db description).2 ∈ retailer_labels db)).
  { unfold labels_of.
    destruct (decide (length (descriptions db) = length (business_labels db)))
      as [Hb | Hb];
      [destruct (decide (length (descriptions db) = length (retailer_labels db)))
         as [Hr | Hr] |].
    - rewrite categorize_value by done. cbn [fst snd]. split; apply first_label_in.
    - unfold categorize_transaction, bind, enter_matcher.
      apply Nat.eqb_neq in Hr. rewrite Hr, orb_true_r. cbn. by split; left.
    - unfold categorize_transaction, bind, enter_matcher.
      apply Nat.eqb_neq in Hb. rewrite Hb. cbn. by split; left. }
  destruct Hlabels as [H1 H2]. split_and!; try done.
  intros Hb Hr. unfold printed_by. rewrite categorize_value by done.
  cbn [snd stdout]. by rewrite app_nil_r.
Qed.

(* ===================================================================== *)
(** ** The batch categorizer: what is written, what is printed *)
(* ===================================================================== *)

Section BatchFacts.

Variable db : category_db.

Lemma fill_cells (r : row) :
  cell (fill db r) Col_Business_Type
  = (if Str.truthy (cell r Col_Business_Type) then cell r Col_Business_Type
     else (labels_of db (cell r Col_Description)).1) /\
  cell (fill db r) Col_Retailer
  = (if Str.truthy (cell r Col_Retailer) then cell r Col_Retailer
     else (labels_of db (cell r Col_Description)).2).
Proof.
  destruct r as [st da de db' cr mn [|b0 bt] [|r0 rt]]; unfold fill, needs_label;
    cbn [cell Business_Type Retailer Description Str.truthy negb orb andb];
    [ | | | done ];
    destruct (labels_of db de) as [[|b1 business] [|r1 retailer]]; by cbn.
Qed.

Lemma labels_of_mismatched (description : string) :
  ~ (length (descriptions db) = length (business_labels db) /\
     length (descriptions db) = length (retailer_labels db)) ->
  labels_of db description = ("", "") /\
  printed_by db description
  = [ "Warning: Category database has mismatched list lengths. This may cause errors.";
      "Descriptions: " +:+ pretty (length (descriptions db));
      "Business Labels: " +:+ pretty (length (business_labels db));
      "Retailer Labels: " +:+ pretty (length (retailer_labels db)) ].
Proof.
  intros Hne. unfold labels_of, printed_by, categorize_transaction, bind, enter_matcher.
  destruct (negb (length (descriptions db) =? length (business_labels db)) ||
            negb (length (descriptions db) =? length (retailer_labels db))) eqn:E.
  - by cbn.
  - apply orb_false_iff in E as [E1 E2].
    apply negb_false_iff, Nat.eqb_eq in E1, E2. by destruct Hne.
Qed.

Lemma printed_by_well_formed (description : string) :
  length (descriptions db) = length (business_labels db) ->
  length (descriptions db) = length (retailer_labels db) ->
  printed_by db description = [].
Proof. intros Hb Hr. unfold printed_by. by rewrite categorize_value. Qed.

Lemma categorized_count_fill (F : DataFrame) :
  categorized_count F <= categorized_count (fill_frame db F).
Proof.
  unfold categorized_count, fill_frame. induction F as [|[i r] F IH]; [done |].
  cbn [map List.filter fst snd].
  destruct (negb (String.eqb (cell r Col_Business_Type) "") ||
            negb (String.eqb (cell r Col_Retailer) "")) eqn:Hr.
  - replace (negb (String.eqb (cell (fill db r) Col_Business_Type) "") ||
             negb (String.eqb (cell (fill db r) Col_Retailer) "")) with true.
    + cbn [length]. lia.
    + symmetry. apply orb_true_iff in Hr as [Hr | Hr];
        apply negb_true_iff, String.eqb_neq in Hr;
        rewrite (fill_keeps db r _ (or_introl Hr));
        apply String.eqb_neq in Hr; rewrite Hr; [done | apply orb_true_r].
  - destruct (negb (String.eqb (cell (fill db r) Col_Business_Type) "") ||
              negb (String.eqb (cell (fill db r) Col_Retailer) ""));
      cbn [length]; lia.
Qed.

End BatchFacts.

(** X16. With a rule database whose three lists do not have one length,
    [categorize_transactions] fills nothing: the new frame has the rows of
    the input, cell for cell; and it prints the four lines of the mismatch
    warning once for each row that has an empty label cell. *)
Theorem categorize_transactions_mismatched_lengths
    (db : category_db) (df : nat) (F : DataFrame) (w : world) :
  frames w !! df = Some F ->
  NoDup F.*1 ->
  ~ (length (descriptions db) = length (business_labels db) /\
     length (descriptions db) = length (retailer_labels db)) ->
  frames (categorize_transactions db df w).2 !! (categorize_transactions db df w).1
  = Some F /\
  stdout (categorize_transactions db df w).2
  = stdout w ++
    concat
      (replicate
         (length (List.filter (fun p => needs_label p.2) F))
         [ "Warning: Category database has mismatched list lengths. This may cause errors.";
           "Descriptions: " +:+ pretty (length (descriptions db));
           "Business Labels: " +:+ pretty (length (business_labels db));
           "Retailer Labels: " +:+ pretty (length (retailer_labels db)) ]).
Proof.
  intros HF Hnd Hne. rewrite (categorize_transactions_run db df F w HF Hnd).
  cbn [fst snd frames stdout].
  assert (Hfill : fill_frame db F = F).
  { unfold fill_frame. rewrite <- (map_id F) at 2. apply map_ext. intros [i r].
    cbn [fst snd]. f_equal. unfold fill.
    destruct (needs_label r); [| done].
    rewrite (proj1 (labels_of_mismatched db _ Hne)). cbn [Str.truthy].
    by rewrite !andb_false_r. }
  rewrite Hfill. split; [by apply list_lookup_middle |]. f_equal.
  unfold batch_output. clear HF Hnd Hfill. induction F as [|[i r] F IH]; [done |].
  cbn [flat_map List.filter snd]. rewrite IH.
  destruct (needs_label r); [| done].
  by rewrite (proj2 (labels_of_mismatched db _ Hne)).
Qed.

Lemma categorize_transactions_mismatched_lengths_witness :
  frames (categorize_transactions (Db ["amazon"] [] ["Amazon"] []) 0 sample_world).2
    !! (categorize_transactions (Db ["amazon"] [] ["Amazon"] []) 0 sample_world).1
  = Some sample_frame.
Proof.
  apply (categorize_transactions_mismatched_lengths
           (Db ["amazon"] [] ["Amazon"] []) 0 sample_frame sample_world).
  - reflexivity.
  - apply NoDup_ListNoDup. repeat constructor; simpl; lia.
  - simpl. lia.
Defined.

(** X17. With a rule database whose three lists have one length,
    [categorize_transactions] prints nothing, and each label cell of the new
    frame is the cell of the input when that was not empty, and otherwise
    exactly what [categorize_transaction] returns for the description of
    the row (which may be the empty string). *)
Theorem categorize_transactions_fills_with_matcher_result
    (db : category_db) (df : nat) (F : DataFrame) (w : world) :
  frames w !! df = Some F ->
  NoDup F.*1 ->
  length (descriptions db) = length (business_labels db) ->
  length (descriptions db) = length (retailer_labels db) ->
  stdout (categorize_transactions db df w).2 = stdout w /\
  exists F' : DataFrame,
    frames (categorize_transactions db df w).2 !! (categorize_transactions db df w).1
    = Some F' /\
    length F' = length F /\
    forall (k i : nat) (r : row),
      F !! k = Some (i, r) ->
      exists r' : row,
        F' !! k = Some (i, r') /\
        cell r' Col_Business_Type
        = (if Str.truthy (cell r Col_Business_Type) then cell r Col_Business_Type
           else (categorize_transaction db (cell r Col_Description) w).1.1) /\
        cell r' Col_Retailer
        = (if Str.truthy (cell r Col_Retailer) then cell r Col_Retailer
           else (categorize_transaction db (cell r Col_Description) w).1.2).
Proof.
  intros HF Hnd Hb Hr. rewrite (categorize_transactions_run db df F w HF Hnd).
  cbn [fst snd frames stdout]. split.
  - rewrite <- (app_nil_r (stdout w)) at 2. f_equal. unfold batch_output.
    clear HF Hnd. induction F as [|[i r] F IH]; [done |].
    cbn [flat_map snd]. rewrite IH, printed_by_well_formed by done.
    by destruct (needs_label r).
  - exists (fill_frame db F). split; [by apply list_lookup_middle |].
    split; [unfold fill_frame; apply length_map |].
    intros k i r Hk. exists (fill db r). split; [by apply fill_frame_lookup |].
    rewrite (categorize_transaction_run db (cell r Col_Description) w). cbn [fst].
    apply fill_cells.
Qed.

Lemma categorize_transactions_fills_with_matcher_result_witness :
  stdout (categorize_transactions default_db 0 sample_world).2 = stdout sample_world.
Proof.
  apply (categorize_transactions_fills_with_matcher_result
           default_db 0 sample_frame sample_world).
  - reflexivity.
  - apply NoDup_ListNoDup. repeat constructor; simpl; lia.
  - reflexivity.
  - reflexivity.
Defined.

(** X18. The count of categorized rows the user interface shows before and
    after "Apply Automatic Categorization" never goes down, and the number
    of rows is the same: the number of newly categorized transactions it
    reports is never negative. *)
Theorem categorize_transactions_count_grows
    (db : category_db) (df : nat) (F : DataFrame) (w : world) :
  frames w !! df = Some F ->
  NoDup F.*1 ->
  exists F' : DataFrame,
    frames (categorize_transactions db df w).2 !! (categorize_transactions db df w).1
    = Some F' /\
    length F' = length F /\
    categorized_count F <= categorized_count F'.
Proof.
  intros HF Hnd. rewrite (categorize_transactions_run db df F w HF Hnd).
  cbn [fst snd frames]. exists (fill_frame db F).
  split; [by apply list_lookup_middle |].
  split; [unfold fill_frame; apply length_map | apply categorized_count_fill].
Qed.

Lemma categorize_transactions_count_grows_witness :
  exists F' : DataFrame,
    frames (categorize_transactions default_db 0 sample_world).2
      !! (categorize_transactions default_db 0 sample_world).1 = Some F' /\
    length F' = length sample_frame /\
    categorized_count sample_frame <= categorized_count F'.
Proof.
  apply (categorize_transactions_count_grows default_db 0 sample_frame sample_world).
  - reflexivity.
  - apply NoDup_ListNoDup. repeat constructor; simpl; lia.
Defined.

(* ===================================================================== *)
(** ** The similarity grouper: what the groups are made of *)
(* ===================================================================== *)

Lemma elem_of_zip_seq {X : Type} (l : list X) (a p : nat) (x : X) :
  (p, x) ∈ zip (seq a (length l)) l <-> a <= p /\ l !! (p - a) = Some x.
Proof.
  revert a. induction l as [|y l IH]; intros a; cbn [length seq zip zip_with].
  - split; [by intros ?%elem_of_nil | by intros [_ ?]].
  - rewrite elem_of_cons, IH. split.
    + intros [[= -> ->] | [Hle Hl]].
      * split; [lia |]. by rewrite Nat.sub_diag.
      * split; [lia |]. by replace (p - a) with (S (p - S a)) by lia.
    + intros [Hle Hl]. destruct (decide (p = a)) as [-> | Hne].
      * left. rewrite Nat.sub_diag in Hl. by injection Hl as ->.
      * right. split; [lia |]. by replace (p - a) with (S (p - S a)) in Hl by lia.
Qed.

Lemma zip_seq_split_inv {X : Type} (R1 : list (nat * X)) :
  forall (l : list X) (a p : nat) (x : X) (R2 : list (nat * X)),
    zip (seq a (length l)) l = R1 ++ (p, x) :: R2 ->
    p = a + length R1 /\ forall p' y, (p', y) ∈ R2 -> p < p'.
Proof.
  induction R1 as [|[q z] R1 IH]; intros [|y l] a p x R2;
    cbn [length seq zip zip_with app]; try done.
  - intros [= <- <- <-]. split; [lia |]. intros p' y' Hin%zip_seq_bounds. lia.
  - intros [= _ _ H]. apply IH in H as [-> H]. split; [lia | done].
Qed.

Lemma enumerate_split {X : Type} (l : list X) (i : nat) (x : X) :
  l !! i = Some x ->
  enumerate l
  = zip (seq 0 (length (take i l))) (take i l) ++
    (i, x) :: zip (seq (S i) (length (drop (S i) l))) (drop (S i) l).
Proof.
  intros Hi. unfold enumerate. rewrite <- (take_drop_middle l i x Hi) at 1 2.
  rewrite zip_seq_app. cbn [length seq zip zip_with]. rewrite Nat.add_0_l.
  by rewrite length_take_le by (apply lookup_lt_Some in Hi; lia).
Qed.

Lemma records_of_lookup (df : DataFrame) (p index : nat) (d : string) :
  (p, (index, d)) ∈ records_of df <->
  exists r : row, df !! p = Some (index, r) /\ cell r Col_Description = d.
Proof.
  unfold records_of, enumerate. rewrite elem_of_zip_seq, Nat.sub_0_r.
  change (map ?f df) with (f <$> df). rewrite list_lookup_fmap_Some. split.
  - intros (_ & [i r] & [= -> ->] & Hp). by exists r.
  - intros (r & Hp & <-). split; [lia |]. by exists (index, r).
Qed.

Lemma records_of_labels (df : DataFrame) :
  map (fun m : nat * (nat * string) => m.2.1) (records_of df) = df.*1.
Proof.
  unfold records_of, enumerate. rewrite <- (map_map snd fst).
  change (map snd ?l) with (l.*2). rewrite snd_zip by (by rewrite length_seq).
  by rewrite map_map.
Qed.

Lemma groups_seed_and_members
    (ratio : string -> string -> Q) (df : DataFrame) (threshold : Q) (g : list nat) :
  g ∈ find_similar_descriptions ratio df threshold ->
  exists (seed : nat) (members : list nat) (i : nat) (r : row),
    g = seed :: members /\ members <> [] /\
    df !! i = Some (seed, r) /\
    forall m : nat,
      m ∈ members ->
      exists (j : nat) (r' : row),
        i < j /\ df !! j = Some (m, r') /\
        (threshold <= ratio (cell r Col_Description) (cell r' Col_Description))%Q.
Proof.
  rewrite find_similar_descriptions_refines. intros Hg.
  destruct (group_spec_sound ratio threshold _ _ _ Hg)
    as (R1 & R2 & members & p & s & d & Hrec & -> & Hne & Hmem).
  assert (Hseed : (p, (s, d)) ∈ records_of df).
  { rewrite Hrec. apply elem_of_app. right. apply list_elem_of_here. }
  apply records_of_lookup in Hseed as (r & Hp & <-).
  exists s, (map (fun m : nat * (nat * string) => m.2.1) members), p, r.
  split; [done |]. split; [by destruct members |]. split; [done |].
  intros m Hm. apply list_elem_of_In, in_map_iff in Hm as ([p' [m' d']] & <- & Hin).
  apply list_elem_of_In, Hmem in Hin as [Hin Hsim]. cbn [fst snd] in *.
  assert (Hlater : p < p').
  { unfold records_of, enumerate in Hrec.
    apply zip_seq_split_inv in Hrec as [_ Hlater]. by eapply Hlater. }
  assert (Hrow : (p', (m', d')) ∈ records_of df).
  { rewrite Hrec. apply elem_of_app. right. by apply list_elem_of_further. }
  apply records_of_lookup in Hrow as (r' & Hp' & <-).
  exists p', r'. split; [done |]. split; [done |]. by apply Qle_bool_iff.
Qed.

(** X19. Every group returned is made of a seed and of rows that come after
    the seed in the frame, each similar to the seed at the threshold or
    above: a member is compared with the seed only, and a group is never
    seeded by a row that comes after one of its members. *)
Theorem find_similar_descriptions_members_similar_to_seed
    (ratio : string -> string -> Q) (df : DataFrame) (threshold : Q) (g : list nat) :
  g ∈ find_similar_descriptions ratio df threshold ->
  exists (seed : nat) (members : list nat) (i : nat) (r : row),
    g = seed :: members /\ members <> [] /\
    df !! i = Some (seed, r) /\
    forall m : nat,
      m ∈ members ->
      exists (j : nat) (r' : row),
        i < j /\ df !! j = Some (m, r') /\
        (threshold <= ratio (cell r Col_Description) (cell r' Col_Description))%Q.
Proof. apply groups_seed_and_members. Qed.

Lemma find_similar_descriptions_members_similar_to_seed_witness :
  exists (seed : nat) (members : list nat) (i : nat) (r : row),
    [1; 2] = seed :: members /\ members <> [] /\
    frame_of ["SHELL"; "SHELL OIL 5744"; " OIL 5744"] !! i = Some (seed, r) /\
    forall m : nat,
      m ∈ members ->
      exists (j : nat) (r' : row),
        i < j /\
        frame_of ["SHELL"; "SHELL OIL 5744"; " OIL 5744"] !! j = Some (m, r') /\
        (6 # 10 <= SequenceMatcher.ratio (cell r Col_Description)
                     (cell r' Col_Description))%Q.
Proof.
  apply (find_similar_descriptions_members_similar_to_seed SequenceMatcher.ratio
           (frame_of ["SHELL"; "SHELL OIL 5744"; " OIL 5744"]) (6 # 10)%Q [1; 2]).
  vm_compute. apply list_elem_of_here.
Defined.

(** Of two rows, the first similar enough to the second that comes after
    it, one at least is returned in a group. *)
Lemma similar_pair_grouped
    (ratio : string -> string -> Q) (df : DataFrame) (threshold : Q)
    (i j li lj : nat) (ri rj : row) :
  i < j -> df !! i = Some (li, ri) -> df !! j = Some (lj, rj) ->
  (threshold <= ratio (cell ri Col_Description) (cell rj Col_Description))%Q ->
  li ∈ grouped_indices (find_similar_descriptions ratio df threshold) \/
  lj ∈ grouped_indices (find_similar_descriptions ratio df threshold).
Proof.
  intros Hij Hi Hj Hsim. rewrite find_similar_descriptions_refines.
  unfold grouped_indices.
  assert (Hli : ((fun p : nat * row => (p.1, cell p.2 Col_Description)) <$> df) !! i
                = Some (li, cell ri Col_Description))
    by (by rewrite list_lookup_fmap, Hi).
  pose proof (enumerate_split _ i _ Hli) as Hsplit.
  change (enumerate ((fun p : nat * row => (p.1, cell p.2 Col_Description)) <$> df))
    with (records_of df) in Hsplit.
  assert (Hj_in : (j, (lj, cell rj Col_Description))
                  ∈ zip (seq (S i)
                           (length (drop (S i)
                                      ((fun p : nat * row =>
                                          (p.1, cell p.2 Col_Description)) <$> df))))
                        (drop (S i)
                           ((fun p : nat * row =>
                               (p.1, cell p.2 Col_Description)) <$> df))).
  { apply elem_of_zip_seq. split; [lia |]. rewrite lookup_drop.
    replace (S i + (j - S i)) with j by lia.
    by rewrite list_lookup_fmap, Hj. }
  set (R1 := zip (seq 0 (length (take i _))) (take i _)) in Hsplit.
  set (R2 := zip (seq (S i) _) _) in *.
  rewrite Hsplit.
  apply (group_spec_maximal ratio threshold R1 R2 ∅ i li j lj
           (cell ri Col_Description) (cell rj Col_Description)).
  - rewrite <- Hsplit. apply records_of_positions.
  - done.
  - apply not_elem_of_empty.
  - apply not_elem_of_empty.
  - by apply Qle_bool_iff.
Qed.

(** X20. [find_similar_descriptions] returns no group exactly when no row
    of the frame is similar, at the threshold or above, to a row that comes
    after it; in particular for an empty frame and for a frame of one row. *)
Theorem find_similar_descriptions_empty_iff
    (ratio : string -> string -> Q) (df : DataFrame) (threshold : Q) :
  find_similar_descriptions ratio df threshold = [] <->
  forall (i j li lj : nat) (ri rj : row),
    i < j -> df !! i = Some (li, ri) -> df !! j = Some (lj, rj) ->
    ~ (threshold <= ratio (cell ri Col_Description) (cell rj Col_Description))%Q.
Proof.
  split.
  - intros Hnil i j li lj ri rj Hij Hi Hj Hsim.
    destruct (similar_pair_grouped ratio df threshold i j li lj ri rj Hij Hi Hj Hsim)
      as [H | H]; rewrite Hnil in H; by apply elem_of_nil in H.
  - intros Hnone.
    destruct (find_similar_descriptions ratio df threshold) as [|g gs] eqn:Hout;
      [done | exfalso].
    destruct (groups_seed_and_members ratio df threshold g)
      as (seed & members & i & r & -> & Hne & Hi & Hmem).
    { rewrite Hout. apply list_elem_of_here. }
    destruct members as [|m members]; [done |].
    destruct (Hmem m (list_elem_of_here _ _)) as (j & r' & Hij & Hj & Hsim).
    by apply (Hnone i j seed m r r').
Qed.

(** X23. The grouping leaves no similar pair out: of two rows, the first
    similar at the threshold or above to the second that comes after it, at
    least one has its index in a returned group. *)
Theorem find_similar_descriptions_similar_pair_grouped
    (ratio : string -> string -> Q) (df : DataFrame) (threshold : Q)
    (i j li lj : nat) (ri rj : row) :
  i < j -> df !! i = Some (li, ri) -> df !! j = Some (lj, rj) ->
  (threshold <= ratio (cell ri Col_Description) (cell rj Col_Description))%Q ->
  li ∈ grouped_indices (find_similar_descriptions ratio df threshold) \/
  lj ∈ grouped_indices (find_similar_descriptions ratio df threshold).
Proof. apply similar_pair_grouped. Qed.

Lemma find_similar_descriptions_similar_pair_grouped_witness :
  1 ∈ grouped_indices
        (find_similar_descriptions SequenceMatcher.ratio
           (frame_of ["SHELL"; "SHELL OIL 5744"; " OIL 5744"]) (1 # 2)%Q) \/
  2 ∈ grouped_indices
        (find_similar_descriptions SequenceMatcher.ratio
           (frame_of ["SHELL"; "SHELL OIL 5744"; " OIL 5744"]) (1 # 2)%Q).
Proof.
  apply (find_similar_descriptions_similar_pair_grouped SequenceMatcher.ratio
           (frame_of ["SHELL"; "SHELL OIL 5744"; " OIL 5744"]) (1 # 2)%Q
           1 2 1 2
           (Row "Posted" "2023-01-01" "SHELL OIL 5744" "10.0" "" "Test User" "" "")
           (Row "Posted" "2023-01-01" " OIL 5744" "10.0" "" "Test User" "" "")).
  - lia.
  - reflexivity.
  - reflexivity.
  - vm_compute. discriminate.
Defined.

Section Disjointness.

Variable ratio : string -> string -> Q.
Variable threshold : Q.

(** An index returned is that of a record that was not consumed. *)
Lemma group_spec_from (records : list (nat * (nat * string))) :
  forall (consumed : gset nat) (x : nat),
    x ∈ concat (group_spec ratio threshold records consumed) ->
    exists (p : nat) (d : string), (p, (x, d)) ∈ records /\ p ∉ consumed.
Proof.
  induction records as [|[q [l e]] later IH]; intros consumed x;
    [by intros ?%elem_of_nil |].
  rewrite group_spec_cons.
  assert (Hrest : forall consumed',
             consumed ⊆ consumed' ->
             x ∈ concat (group_spec ratio threshold later consumed') ->
             exists (p : nat) (d : string),
               (p, (x, d)) ∈ (q, (l, e)) :: later /\ p ∉ consumed).
  { intros consumed' Hsub Hx. destruct (IH consumed' x Hx) as (p & d & Hin & Hp).
    exists p, d. split; [by apply list_elem_of_further | set_solver]. }
  destruct (bool_decide (q ∈ consumed)) eqn:Hq; [by apply Hrest |].
  apply bool_decide_eq_false in Hq.
  destruct (List.filter _ later) as [|m members] eqn:Hmem;
    [apply Hrest; set_solver |].
  cbn [concat]. intros [Hx | Hx]%elem_of_app; [| by apply Hrest in Hx; [| set_solver]].
  apply elem_of_cons in Hx as [-> | Hx].
  - exists q, e. split; [apply list_elem_of_here | done].
  - apply list_elem_of_In in Hx.
    change (In x (map (fun m : nat * (nat * string) => m.2.1) (m :: members))) in Hx.
    apply in_map_iff in Hx as ([p [x' d]] & <- & Hin). rewrite <- Hmem in Hin.
    apply filter_In in Hin as [Hin Hj]. exists p, d.
    split; [by apply list_elem_of_further, list_elem_of_In |].
    unfold joins in Hj. apply andb_true_iff in Hj as [Hj _]. cbn [fst] in Hj.
    by apply negb_true_iff, bool_decide_eq_false in Hj.
Qed.

Lemma labels_injective (records : list (nat * (nat * string)))
    (a b : nat * (nat * string)) :
  NoDup (map (fun m : nat * (nat * string) => m.2.1) records) ->
  a ∈ records -> b ∈ records -> a.2.1 = b.2.1 -> a = b.
Proof.
  intros Hnd [i Ha]%list_elem_of_lookup [j Hb]%list_elem_of_lookup Hab.
  assert (i = j) as ->; [| congruence].
  eapply NoDup_lookup; [exact Hnd | |].
  - change (map ?f records) with (f <$> records). by rewrite list_lookup_fmap, Ha.
  - change (map ?f records) with (f <$> records). by rewrite list_lookup_fmap, Hb, Hab.
Qed.

Lemma map_filter_sublist {X Y : Type} (f : X -> Y) (g : X -> bool) (l : list X) :
  sublist (map f (List.filter g l)) (map f l).
Proof.
  induction l as [|x l IH]; cbn [List.filter map]; [constructor |].
  destruct (g x); cbn [map]; by constructor.
Qed.

(** Over records of pairwise distinct indices, no index is returned twice. *)
Lemma group_spec_NoDup (records : list (nat * (nat * string))) :
  NoDup (map (fun m : nat * (nat * string) => m.2.1) records) ->
  forall consumed : gset nat,
    NoDup (concat (group_spec ratio threshold records consumed)).
Proof.
  induction records as [|[q [l e]] later IH]; intros Hnd consumed;
    [constructor |].
  cbn [map fst snd] in Hnd. apply NoDup_cons in Hnd as [Hl Hnd].
  rewrite group_spec_cons. destruct (bool_decide _); [by apply IH |].
  destruct (List.filter _ later) as [|m members] eqn:Hmem; [by apply IH |].
  cbn [concat]. rewrite <- Hmem. apply NoDup_app. split_and!.
  - apply NoDup_cons. split.
    + intros Hin. apply Hl.
      eapply elem_of_sublist; [exact Hin | apply map_filter_sublist].
    + eapply sublist_NoDup; [exact Hnd | apply map_filter_sublist].
  - intros x Hx Hrest.
    apply group_spec_from in Hrest as (p & d & Hin & Hp).
    apply elem_of_cons in Hx as [-> | Hx].
    + apply Hl. apply list_elem_of_In.
      by apply (in_map (fun m : nat * (nat * string) => m.2.1) _ (p, (l, d))),
               list_elem_of_In.
    + apply list_elem_of_In, in_map_iff in Hx as ([p' [x' d']] & Hx' & Hin').
      cbn [fst snd] in Hx'. subst x'.
      assert (Hin'' := Hin'). apply filter_In in Hin'' as [Hin'' _].
      apply list_elem_of_In in Hin''.
      pose proof (labels_injective later (p, (x, d)) (p', (x, d')) Hnd Hin Hin'' eq_refl)
        as [= -> ->].
      apply Hp, elem_of_union_r, elem_of_list_to_set, list_elem_of_In.
      by apply (in_map fst _ (p', (x, d'))).
  - by apply IH.
Qed.

Lemma filter_all {X : Type} (f : X -> bool) (l : list X) :
  (forall x, x ∈ l -> f x = true) -> List.filter f l = l.
Proof.
  induction l as [|y l IH]; intros H; [done |]. cbn [List.filter].
  rewrite (H y (list_elem_of_here _ _)), IH; [done |].
  intros x Hx. by apply H, list_elem_of_further.
Qed.

Lemma group_spec_all_consumed (records : list (nat * (nat * string)))
    (consumed : gset nat) :
  (forall m, m ∈ records -> m.1 ∈ consumed) ->
  group_spec ratio threshold records consumed = [].
Proof.
  induction records as [|[q [l e]] later IH]; intros H; [done |].
  rewrite group_spec_cons.
  rewrite (bool_decide_eq_true_2 _ (H (q, (l, e)) (list_elem_of_here _ _))).
  apply IH. intros m Hm. by apply H, list_elem_of_further.
Qed.

End Disjointness.

(** X21. In a frame whose index labels are pairwise distinct, the groups
    returned are pairwise disjoint and without repetition: no index is
    returned twice, within a group or across groups. *)
Theorem find_similar_descriptions_groups_disjoint
    (ratio : string -> string -> Q) (df : DataFrame) (threshold : Q) :
  NoDup df.*1 ->
  NoDup (grouped_indices (find_similar_descriptions ratio df threshold)).
Proof.
  intros Hnd. rewrite find_similar_descriptions_refines. unfold grouped_indices.
  apply group_spec_NoDup. by rewrite records_of_labels.
Qed.

Lemma find_similar_descriptions_groups_disjoint_witness :
  NoDup (grouped_indices
           (find_similar_descriptions SequenceMatcher.ratio
              (frame_of ["SHELL"; "SHELL OIL 5744"; " OIL 5744"]) (1 # 2)%Q)).
Proof.
  apply (find_similar_descriptions_groups_disjoint SequenceMatcher.ratio
           (frame_of ["SHELL"; "SHELL OIL 5744"; " OIL 5744"]) (1 # 2)%Q).
  apply NoDup_ListNoDup. repeat constructor; simpl; lia.
Defined.

(** X22. When every other row is similar to the first row at the threshold
    or above, a frame of two rows or more comes out as one group: all its
    index labels, in frame order. Rows similar to none but the first are
    thus never compared with each other. *)
Theorem find_similar_descriptions_all_similar_to_first
    (ratio : string -> string -> Q) (threshold : Q)
    (index : nat) (first : row) (rest : DataFrame) :
  rest <> [] ->
  (forall p : nat * row,
      p ∈ rest ->
      (threshold <= ratio (cell first Col_Description) (cell p.2 Col_Description))%Q) ->
  find_similar_descriptions ratio ((index, first) :: rest) threshold
  = [index :: rest.*1].
Proof.
  intros Hne Hsim. rewrite find_similar_descriptions_refines.
  unfold records_of, enumerate. cbn [map length seq zip zip_with fst snd].
  rewrite group_spec_cons.
  rewrite bool_decide_eq_false_2 by apply not_elem_of_empty.
  set (later := zip (seq 1 (length (map _ rest))) (map _ rest)).
  assert (Hall : List.filter (joins ratio threshold ∅ (cell first Col_Description)) later
                 = later).
  { apply filter_all. intros [p [l d]] Hm. unfold joins. cbn [fst snd].
    rewrite bool_decide_eq_false_2 by apply not_elem_of_empty. cbn [negb andb].
    apply Qle_bool_iff. unfold later in Hm.
    apply elem_of_zip_seq in Hm as [_ Hm].
    change (map ?f rest) with (f <$> rest) in Hm.
    apply list_lookup_fmap_Some in Hm as ([l' r'] & [= -> ->] & Hm).
    apply (Hsim (l', r')). by eapply list_elem_of_lookup_2. }
  rewrite Hall.
  assert (Hlabels : map (fun m : nat * (nat * string) => m.2.1) later = rest.*1).
  { unfold later. rewrite <- (map_map snd fst).
    change (map snd ?l) with (l.*2). rewrite snd_zip by (by rewrite length_seq).
    by rewrite map_map. }
  rewrite group_spec_all_consumed.
  2:{ intros m Hm. apply elem_of_union_r, elem_of_list_to_set, list_elem_of_In.
      by apply in_map, list_elem_of_In. }
  destruct later as [|m later'] eqn:Hlater.
  - destruct rest; [done | discriminate Hlater].
  - by rewrite Hlabels.
Qed.

Lemma find_similar_descriptions_all_similar_to_first_witness :
  find_similar_descriptions SequenceMatcher.ratio
    ((0, Row "Posted" "2023-01-01" "WALMART #1234" "10.0" "" "Test User" "" "")
     :: [(1, Row "Posted" "2023-01-01" "WALMART #5678" "10.0" "" "Test User" "" "")])
    (6 # 10)%Q
  = [[0; 1]].
Proof.
  apply (find_similar_descriptions_all_similar_to_first SequenceMatcher.ratio (6 # 10)%Q
           0 (Row "Posted" "2023-01-01" "WALMART #1234" "10.0" "" "Test User" "" "")
           [(1, Row "Posted" "2023-01-01" "WALMART #5678" "10.0" "" "Test User" "" "")]).
  - discriminate.
  - intros p Hp. apply list_elem_of_singleton in Hp as ->.
    vm_compute. discriminate.
Defined.

(* ===================================================================== *)
(** ** Fragments of the user interface *)
(* ===================================================================== *)

Lemma ends_with_app (suffix s : string) : ends_with suffix (s +:+ suffix) = true.
Proof.
  induction s as [|c s IH].
  - change ("" +:+ suffix) with suffix. destruct suffix; cbn [ends_with];
      by rewrite String.eqb_refl.
  - change (String c s +:+ suffix) with (String c (s +:+ suffix)).
    cbn [ends_with]. rewrite IH. apply orb_true_r.
Qed.

Lemma ends_with_prepend (suffix a b : string) :
  ends_with suffix b = true -> ends_with suffix (a +:+ b) = true.
Proof.
  intros H. induction a as [|c a IH]; [done |].
  change (String c a +:+ b) with (String c (a +:+ b)).
  cbn [ends_with]. rewrite IH. apply orb_true_r.
Qed.

Lemma output_filename_csv (filename : string) :
  ends_with ".csv" (output_filename filename) = true.
Proof.
  unfold output_filename. destruct (ends_with ".csv" filename) eqn:E; cbn [negb];
    [done | apply ends_with_app].
Qed.

(** X24. The path the Save Results page writes to always ends in ".csv";
    a name that already ends so is not extended, so naming is idempotent;
    and the file lies in the directory output unless the name given starts
    with a slash, in which case the path is that name and the output
    directory is bypassed. *)
Theorem output_path_ends_in_csv (filename : string) :
  ends_with ".csv" (output_path filename) = true /\
  output_filename (output_filename filename) = output_filename filename /\
  (Str.starts_with "/" filename = false ->
   output_path filename = "output/" +:+ output_filename filename) /\
  (Str.starts_with "/" filename = true ->
   output_path filename = output_filename filename).
Proof.
  assert (Hslash : Str.starts_with "/" (output_filename filename)
                   = Str.starts_with "/" filename).
  { unfold output_filename. destruct (negb _); [| done]. by destruct filename. }
  unfold output_path, path_join. rewrite Hslash. split_and!.
  - destruct (Str.starts_with "/" filename); [apply output_filename_csv |].
    cbn [Str.truthy negb orb ends_with String.eqb Ascii.eqb Bool.eqb andb].
    apply (ends_with_prepend ".csv" "output/"), output_filename_csv.
  - unfold output_filename at 1. by rewrite output_filename_csv.
  - by intros ->.
  - by intros ->.
Qed.

Section KeyPhrase.

Lemma is_whitespace_lower_char (c : ascii) :
  Str.is_whitespace (Str.lower_char c) = Str.is_whitespace c.
Proof. destruct c as [[] [] [] [] [] [] [] []]; reflexivity. Qed.

Lemma lower_char_eqb_space (c : ascii) :
  Ascii.eqb (Str.lower_char c) " " = Ascii.eqb c " ".
Proof. destruct c as [[] [] [] [] [] [] [] []]; reflexivity. Qed.

Lemma string_app_nil_r (s : string) : s +:+ "" = s.
Proof.
  induction s as [|c s IH]; [done |].
  change (String c (s +:+ "") = String c s). by rewrite IH.
Qed.

Lemma split_from_lower (s : string) :
  forall word : string,
    split_from (Str.lower word) (Str.lower s) = map Str.lower (split_from word s).
Proof.
  induction s as [|c s IH]; intros word; cbn [Str.lower split_from].
  - by destruct word.
  - rewrite is_whitespace_lower_char. destruct (Str.is_whitespace c).
    + rewrite map_app. rewrite <- (IH ""). by destruct word.
    + rewrite <- IH. by rewrite lower_app.
Qed.

Lemma flatten_app (l1 l2 : list string) : flatten (l1 ++ l2) = flatten l1 +:+ flatten l2.
Proof.
  induction l1 as [|x l1 IH]; [done |].
  change (x +:+ flatten (l1 ++ l2) = (x +:+ flatten l1) +:+ flatten l2).
  by rewrite IH, string_app_assoc.
Qed.

(** The words of a string, put together, are the string without its
    whitespace. *)
Lemma flatten_split_from (s : string) :
  forall word : string,
    flatten (split_from word s) = word +:+ Str.remove_whitespace s.
Proof.
  induction s as [|c s IH]; intros word; cbn [split_from Str.remove_whitespace].
  - destruct word; [done |]. cbn [Str.truthy flatten fold_right].
    by rewrite !string_app_nil_r.
  - destruct (Str.is_whitespace c).
    + rewrite flatten_app, (IH ""). destruct word; [done |].
      cbn [Str.truthy flatten fold_right]. by rewrite string_app_nil_r.
    + rewrite IH, string_app_assoc. done.
Qed.

Lemma no_whitespace_app (a b : string) :
  no_whitespace (a +:+ b) = no_whitespace a && no_whitespace b.
Proof.
  induction a as [|c a IH]; [done |].
  change (no_whitespace (String c (a +:+ b))
          = no_whitespace (String c a) && no_whitespace b).
  cbn [no_whitespace]. by rewrite IH, andb_assoc.
Qed.

Lemma split_from_no_whitespace (s : string) :
  forall word : string,
    no_whitespace word = true -> Forall (fun w => no_whitespace w = true) (split_from word s).
Proof.
  induction s as [|c s IH]; intros word Hword; cbn [split_from].
  - destruct (Str.truthy word); by repeat constructor.
  - destruct (Str.is_whitespace c) eqn:Hc.
    + apply Forall_app. split; [| by apply IH].
      destruct (Str.truthy word); by repeat constructor.
    + apply IH. rewrite no_whitespace_app, Hword. cbn [no_whitespace]. by rewrite Hc.
Qed.

Lemma remove_spaces_no_whitespace (w : string) :
  no_whitespace w = true -> Str.remove_spaces w = w.
Proof.
  induction w as [|c w IH]; [done |]. cbn [no_whitespace Str.remove_spaces].
  intros [Hc Hw]%andb_true_iff. rewrite (IH Hw).
  destruct (Ascii.eqb_spec c " ") as [-> | _]; [discriminate Hc | done].
Qed.

Lemma remove_whitespace_spaces_only (s : string) :
  spaces_only s = true -> Str.remove_whitespace s = Str.remove_spaces s.
Proof.
  induction s as [|c s IH]; [done |].
  cbn [spaces_only Str.remove_whitespace Str.remove_spaces].
  intros [Hc Hs]%andb_true_iff. rewrite (IH Hs).
  destruct (Ascii.eqb_spec c " ") as [-> | Hne]; [done |].
  rewrite orb_false_r in Hc. apply negb_true_iff in Hc. by rewrite Hc.
Qed.

Lemma spaces_only_lower (s : string) : spaces_only (Str.lower s) = spaces_only s.
Proof.
  induction s as [|c s IH]; [done |]. cbn [Str.lower spaces_only].
  by rewrite is_whitespace_lower_char, lower_char_eqb_space, IH.
Qed.

Lemma lower_join (sep : string) (l : list string) :
  Str.lower (join sep l) = join (Str.lower sep) (map Str.lower l).
Proof.
  induction l as [|x l IH]; [done |]. destruct l as [|y l]; [done |].
  change (join sep (x :: y :: l)) with (x +:+ sep +:+ join sep (y :: l)).
  rewrite !lower_app, IH. done.
Qed.

Lemma remove_spaces_join (l : list string) :
  Forall (fun w => no_whitespace w = true) l ->
  Str.remove_spaces (join " " l) = flatten l.
Proof.
  induction 1 as [|x l Hx Hl IH]; [done |]. destruct l as [|y l].
  - cbn [join flatten fold_right]. rewrite string_app_nil_r.
    by apply remove_spaces_no_whitespace.
  - change (join " " (x :: y :: l)) with (x +:+ " " +:+ join " " (y :: l)).
    rewrite !remove_spaces_app, IH, (remove_spaces_no_whitespace x Hx). done.
Qed.

(** The default key phrase, read as the matcher reads it, begins the
    description read the same way. *)
Lemma default_key_phrase_prefix (description : string) :
  spaces_only description = true ->
  exists rest : string,
    normalize description = normalize (default_key_phrase description) +:+ rest.
Proof.
  intros Hd. unfold default_key_phrase, split.
  set (ws := split_from "" (Str.lower description)).
  assert (Hlower : map Str.lower ws = ws).
  { unfold ws. rewrite <- (split_from_lower (Str.lower description) "").
    by rewrite lower_idempotent. }
  assert (Hwords : Forall (fun w => no_whitespace w = true) ws)
    by by apply split_from_no_whitespace.
  assert (Hall : normalize description = flatten ws).
  { unfold normalize, ws. rewrite flatten_split_from.
    by rewrite remove_whitespace_spaces_only by (by rewrite spaces_only_lower). }
  exists (flatten (drop 2 ws)). rewrite Hall.
  unfold normalize. rewrite lower_join.
  change (Str.lower " ") with " ".
  replace (map Str.lower (take 2 ws)) with (take 2 ws).
  2:{ change (map Str.lower (take 2 ws)) with (Str.lower <$> take 2 ws).
      rewrite fmap_take. change (Str.lower <$> ws) with (map Str.lower ws).
      by rewrite Hlower. }
  rewrite remove_spaces_join by (by apply Forall_take).
  by rewrite <- flatten_app, take_drop.
Qed.

End KeyPhrase.

(** X25. The key phrase the Manual Categorization page derives when none is
    typed (the first two words of the lower-cased description of the first
    transaction of the group, joined by a space) matches that transaction:
    a rule bearing it is returned by [_match_description] for the
    description it was derived from, provided the only whitespace in the
    description is the space character. *)
Theorem default_key_phrase_matches_its_description
    (db : category_db) (description : string) (i : nat) :
  spaces_only description = true ->
  descriptions db !! i = Some (default_key_phrase description) ->
  i ∈ _match_description db description.
Proof.
  intros Hd Hi. apply elem_of_match_description.
  exists (default_key_phrase description). split; [done |].
  destruct (default_key_phrase_prefix description Hd) as [rest Hrest].
  by exists "", rest.
Qed.

Lemma default_key_phrase_matches_its_description_witness :
  0 ∈ _match_description (Db ["walmart san"] ["Personal"] [""] []) "WALMART  SAN RAMON CA".
Proof.
  apply (default_key_phrase_matches_its_description _ "WALMART  SAN RAMON CA" 0);
    reflexivity.
Defined.

(* ===================================================================== *)
(** ** Categorizing again after a rule is appended *)
(* ===================================================================== *)

Lemma fill_appended
    (db : category_db) (key_phrase business retailer : string) (r : row) :
  length (descriptions db) = length (business_labels db) ->
  length (descriptions db) = length (retailer_labels db) ->
  let db' :=
    Db (descriptions db ++ [key_phrase]) (business_labels db ++ [business])
       (retailer_labels db ++ [retailer]) (other_fields db) in
  fill db' (fill db r) = fill db' r.
Proof.
  intros Hb Hr db'.
  destruct r as [st da de debit cr mn bt rt].
  pose proof (proj2 (appended_rule_value db key_phrase business retailer de
                       empty_world Hb Hr)) as Hnew.
  cbv zeta in Hnew. fold db' in Hnew.
  change (categorize_transaction db' de empty_world).1 with (labels_of db' de) in Hnew.
  change (categorize_transaction db de empty_world).1 with (labels_of db de) in Hnew.
  unfold fill, needs_label.
  cbn [cell Business_Type Retailer Description].
  destruct (labels_of db de) as [b1 r1] eqn:HL.
  destruct (Str.contains (normalize key_phrase) (normalize de));
    destruct bt as [|? ?], rt as [|? ?], b1 as [|? ?], r1 as [|? ?],
             business as [|? ?], retailer as [|? ?];
    cbn in Hnew |- *; rewrite ?HL, ?Hnew; cbn; rewrite ?HL, ?Hnew; reflexivity.
Qed.

(** X26. Categorizing a frame, appending a rule to the rule database, and
    categorizing the result again gives the same frame as categorizing the
    original frame once with the extended database (three lists of one
    length, index labels pairwise distinct): labels filled under the old
    rules are those the extended rules give. *)
Theorem categorize_transactions_after_appended_rule
    (db : category_db) (key_phrase business retailer : string)
    (df : nat) (F : DataFrame) (w : world) :
  frames w !! df = Some F ->
  NoDup F.*1 ->
  length (descriptions db) = length (business_labels db) ->
  length (descriptions db) = length (retailer_labels db) ->
  let db' :=
    Db (descriptions db ++ [key_phrase]) (business_labels db ++ [business])
       (retailer_labels db ++ [retailer]) (other_fields db) in
  let once := categorize_transactions db df w in
  let again := categorize_transactions db' once.1 once.2 in
  let direct := categorize_transactions db' df w in
  exists F' : DataFrame,
    frames again.2 !! again.1 = Some F' /\ frames direct.2 !! direct.1 = Some F'.
Proof.
  intros HF Hnd Hb Hr db'. cbv zeta.
  rewrite (categorize_transactions_run db df F w HF Hnd). cbn [fst snd].
  rewrite (categorize_transactions_run db' df F w HF Hnd). cbn [fst snd frames].
  rewrite (categorize_transactions_run db' _ (fill_frame db F)); cbn [frames];
    [ | by apply list_lookup_middle | by rewrite fill_frame_labels ].
  cbn [fst snd frames]. exists (fill_frame db' F). split.
  - replace (fill_frame db' (fill_frame db F)) with (fill_frame db' F).
    + apply list_lookup_middle. by rewrite length_app, Nat.add_comm.
    + unfold fill_frame. rewrite map_map. apply map_ext. intros [i r].
      cbn [fst snd]. f_equal. symmetry. by apply fill_appended.
  - by apply list_lookup_middle.
Qed.

Lemma categorize_transactions_after_appended_rule_witness :
  exists F' : DataFrame,
    frames
      (categorize_transactions
         (Db (descriptions default_db ++ ["starbucks"])
             (business_labels default_db ++ ["Coffee"])
             (retailer_labels default_db ++ ["Starbucks"]) (other_fields default_db))
         (categorize_transactions default_db 0 sample_world).1
         (categorize_transactions default_db 0 sample_world).2).2
      !! (categorize_transactions
            (Db (descriptions default_db ++ ["starbucks"])
                (business_labels default_db ++ ["Coffee"])
                (retailer_labels default_db ++ ["Starbucks"]) (other_fields default_db))
            (categorize_transactions default_db 0 sample_world).1
            (categorize_transactions default_db 0 sample_world).2).1
    = Some F' /\
    frames
      (categorize_transactions
         (Db (descriptions default_db ++ ["starbucks"])
             (business_labels default_db ++ ["Coffee"])
             (retailer_labels default_db ++ ["Starbucks"]) (other_fields default_db))
         0 sample_world).2
      !! (categorize_transactions
            (Db (descriptions default_db ++ ["starbucks"])
                (business_labels default_db ++ ["Coffee"])
                (retailer_labels default_db ++ ["Starbucks"]) (other_fields default_db))
            0 sample_world).1
    = Some F'.
Proof.
  apply (categorize_transactions_after_appended_rule default_db
           "starbucks" "Coffee" "Starbucks" 0 sample_frame sample_world).
  - reflexivity.
  - apply NoDup_ListNoDup. repeat constructor; simpl; lia.
  - reflexivity.
  - reflexivity.
Defined.

(* ===================================================================== *)
(** ** The indices returned are the index labels of the frame *)
(* ===================================================================== *)

Section Relabel.

Variable ratio : string -> string -> Q.
Variable threshold : Q.
Variable g : nat -> nat.

Let relabel (m : nat * (nat * string)) : nat * (nat * string) :=
  (m.1, (g m.2.1, m.2.2)).

Lemma filter_joins_relabel (consumed : gset nat) (seed : string)
    (records : list (nat * (nat * string))) :
  List.filter (joins ratio threshold consumed seed) (map relabel records)
  = map relabel (List.filter (joins ratio threshold consumed seed) records).
Proof.
  induction records as [|m records IH]; [done |]. cbn [map List.filter].
  rewrite IH. by destruct (joins ratio threshold consumed seed m) eqn:E;
    unfold joins in *; cbn [relabel fst snd] in *; rewrite E.
Qed.

(** Grouping looks at positions and descriptions only: the indices are
    carried along. *)
Lemma group_spec_relabel (records : list (nat * (nat * string))) :
  forall consumed : gset nat,
    group_spec ratio threshold (map relabel records) consumed
    = map (map g) (group_spec ratio threshold records consumed).
Proof.
  induction records as [|[p [l d]] later IH]; intros consumed; [done |].
  cbn [map]. unfold relabel at 1. cbn [fst snd]. rewrite !group_spec_cons.
  destruct (bool_decide (p ∈ consumed)); [apply IH |].
  rewrite filter_joins_relabel.
  assert (Hpos : map fst (map relabel
                            (List.filter (joins ratio threshold consumed d) later))
                 = map fst (List.filter (joins ratio threshold consumed d) later))
    by (rewrite map_map; by apply map_ext).
  rewrite Hpos.
  destruct (List.filter (joins ratio threshold consumed d) later) as [|m members];
    [apply IH |].
  cbn [map]. rewrite IH. do 3 f_equal. rewrite !map_map. by apply map_ext.
Qed.

End Relabel.

Lemma records_of_relabel (later before : DataFrame) :
  zip (seq (length before) (length later))
      (map (fun p : nat * row => (p.1, cell p.2 Col_Description)) later)
  = map (fun m : nat * (nat * string) =>
           (m.1, (nth m.2.1 (before ++ later).*1 0, m.2.2)))
        (zip (seq (length before) (length later))
             (map (fun p : nat * row => (p.1, cell p.2 Col_Description))
                  (zip (seq (length before) (length later)) (map snd later)))).
Proof.
  revert before. induction later as [|[l r] later IH]; intros before; [done |].
  cbn [length seq map zip zip_with fst snd]. f_equal.
  - rewrite fmap_app, fmap_cons. cbn [fst].
    rewrite <- (length_fmap fst before). by rewrite nth_middle.
  - specialize (IH (before ++ [(l, r)])).
    rewrite length_app, Nat.add_comm in IH. cbn [length plus] in IH.
    rewrite <- app_assoc in IH. cbn [app] in IH.
    exact IH.
Qed.

(** X27. The indices returned are index labels, not positions: grouping a
    frame gives what grouping the same rows indexed 0, 1, 2, ... gives, each
    position being replaced by the index label the frame has there. Which
    rows are grouped depends on the descriptions and their order only. *)
Theorem find_similar_descriptions_returns_index_labels
    (ratio : string -> string -> Q) (df : DataFrame) (threshold : Q) :
  find_similar_descriptions ratio df threshold
  = map (map (fun position => nth position df.*1 0))
        (find_similar_descriptions ratio (enumerate (map snd df)) threshold).
Proof.
  rewrite !find_similar_descriptions_refines.
  rewrite <- group_spec_relabel. f_equal.
  pose proof (records_of_relabel df []) as H. cbn [length app] in H.
  unfold records_of, enumerate. rewrite !length_map.
  rewrite length_zip_with, length_seq, !length_map, Nat.min_id.
  exact H.
Qed.
Example default_db_rules :
  descriptions default_db
    = ["oakhurst"; "pleasanton"; "san ramon"; "dublin"; "amazon"; "costco"]
  /\ business_labels default_db = ["Oakhurst"; "Personal"; "Personal"; "Personal"; ""; ""]
  /\ retailer_labels default_db = [""; ""; ""; ""; "Amazon"; "Costco"].
Proof. repeat split. Qed.

Example match_san_ramon :
  _match_description default_db "WALMART SAN RAMON CA" = [2].
Proof. reflexivity. Qed.

Example categorize_amazon :
  (categorize_transaction default_db "Amazon Prime Subscription" empty_world).1
  = ("", "Amazon").
Proof. reflexivity. Qed.


Example ratio_walmart :
  SequenceMatcher.ratio "WALMART #1234" "WALMART #5678" = (18 # 26)%Q
  /\ SequenceMatcher.ratio "WALMART #1234" "STARBUCKS #1234" = (16 # 28)%Q.
Proof. split; reflexivity. Qed.

Example grouping_walmart :
  find_similar_descriptions SequenceMatcher.ratio
    (frame_of ["WALMART #1234"; "WALMART #5678"; "STARBUCKS #1234"; "CHEVRON GAS"])
    (6 # 10)%Q
  = [[0; 1]].
Proof. vm_compute. reflexivity. Qed.

Example categorize_spec_examples :
  (categorize_transaction default_db "Costco Wholesale #123" empty_world).1 = ("", "Costco")
  /\ (categorize_transaction default_db "OAKHURST DAIRY FARM" empty_world).1 = ("Oakhurst", "")
  /\ (categorize_transaction default_db "STARBUCKS PLEASANTON CA" empty_world).1
     = ("Personal", "").
Proof. repeat split. Qed.

(** A hand-set business type is kept; the empty retailer next to it is
    filled. *)
Example never_downgrade :
  map (fun p => (cell p.2 Col_Business_Type, cell p.2 Col_Retailer))
      (fill_frame default_db sample_frame)
  = [("Manual", "Amazon"); ("Personal", "")].
Proof. reflexivity. Qed.

Example load_missing_file_without_directory :
  _load_category_db ∅ (Some "category_db.json") = (Raised FileNotFoundError, ∅).
Proof. reflexivity. Qed.

Example load_mismatched_lengths_falls_back :
  (_load_category_db
     {["db/rules.json" :=
         Document (JObj [("descriptions", JArr [JStr "walmart"]);
                         ("business_labels", JArr []);
                         ("retailer_labels", JArr [JStr "Walmart"])])]}
     (Some "db/rules.json")).1
  = Loaded default_db.
Proof. reflexivity. Qed.

(** With a tab between its first two words, a description is not matched by
    the key phrase derived from it. *)
Example default_key_phrase_tab :
  default_key_phrase ("WALMART" +:+ String "009" "STORE 12") = "walmart store"
  /\ _match_description (Db ["walmart store"] ["Retail"] [""] [])
       ("WALMART" +:+ String "009" "STORE 12") = [].
Proof. split; reflexivity. Qed.

(** A path that ends with a slash names a directory: the directory is made,
    and opening the path for writing raises. *)
Example load_directory_name_raises :
  _load_category_db ∅ (Some "db/") = (Raised IsADirectoryError, ∅) /\
  _load_category_db ∅ (Some "db/.") = (Raised IsADirectoryError, ∅).
Proof. split; by vm_compute. Qed.

(** A regular file where the directory of the new file should be, or above
    it: [os.makedirs] raises, and nothing is written. *)
Example load_below_regular_file_raises :
  _load_category_db {["db/rules.json" := Garbage]} (Some "db/rules.json/x.json")
  = (Raised FileExistsError, {["db/rules.json" := Garbage]}) /\
  _load_category_db {["db/rules.json" := Garbage]} (Some "db/rules.json/old/x.json")
  = (Raised NotADirectoryError, {["db/rules.json" := Garbage]}).
Proof. split; by vm_compute. Qed.

(** A file that is no text is not caught like a file that is no JSON. *)
Example load_undecodable_raises :
  _load_category_db {["db/rules.json" := Undecodable]} (Some "db/rules.json")
  = (Raised UnicodeDecodeError, {["db/rules.json" := Undecodable]}).
Proof. reflexivity. Qed.

(** [os.path.dirname] on some paths. *)
Example dirname_examples :
  dirname "src/data/category_db.json" = "src/data" /\
  dirname "/category_db.json" = "/" /\
  dirname "db//rules.json" = "db" /\
  dirname "db/" = "db" /\
  dirname "category_db.json" = "" /\
  ancestors "src/data/old" = ["src/data"; "src"] /\
  components "/src//rules.json" = [""; "src"; ""; "rules.json"] /\
  normal_form "/src/rules.json" = true /\
  normal_form "src//rules.json" = false /\
  normal_form "src/../rules.json" = false.
Proof. repeat split. Qed.
